(** * End-to-end trace policy: a shallow embedding of [src/index.ts]

    The three classes of the source ([Sampler], [MultiSampler] and
    [EndToEndTracePolicy]) are embedded as records with explicit state
    passing: a method that mutates [this] returns its result together with
    the object after the call.

    JavaScript's [number] is embedded twice.

    [number], with the operations of [Num], is an exact rational extended
    with [Infinity], [-Infinity] and [NaN].  [Num.add] and [Num.div] are the
    exact sum and quotient: what the source's [+] and [/] compute whenever
    the exact result is a binary64 number (a millisecond timestamp plus a
    whole number of milliseconds, for instance), and an idealisation
    otherwise.  The statements on routing, filtering, exceptions and the
    order of admissions are made over it.

    [B64.t], with the operations of [B64], is binary64 itself: every sum and
    quotient is the exact one rounded to nearest, ties to even, it overflows
    to an infinity, and zero has a sign.  [Sampler64] is the source's
    [Sampler] over [B64.t]; the statements that depend on how
    [dateMillis + this.traceWindow] rounds are made over it. *)

From Stdlib Require Import QArith Qround Qpower Lqa Lia List Sorted.
From Stdlib Require PrimFloat SpecFloat FloatOps.
From stdpp Require Import gmap strings.

Local Open Scope Q_scope.

(** ** JavaScript numbers *)

Inductive number : Type :=
| Fin (q : Q)
| PInf
| NInf
| NaN.

Module Num.

(** [a < b]: false as soon as one side is [NaN]. *)
Definition lt (a b : number) : bool :=
  match a, b with
  | NaN, _ | _, NaN => false
  | Fin x, Fin y => negb (Qle_bool y x)
  | Fin _, PInf => true
  | Fin _, NInf => false
  | PInf, _ => false
  | NInf, NInf => false
  | NInf, _ => true
  end.

(** [a > b] is [b < a]. *)
Definition gt (a b : number) : bool := lt b a.

(** [a === b] on numbers: [NaN] differs from everything, itself included. *)
Definition strict_eq (a b : number) : bool :=
  match a, b with
  | Fin x, Fin y => Qeq_bool x y
  | PInf, PInf | NInf, NInf => true
  | _, _ => false
  end.

(** [a + b], as the exact sum of finite numbers; the rounded sum is
    [B64.add]. *)
Definition add (a b : number) : number :=
  match a, b with
  | NaN, _ | _, NaN => NaN
  | Fin x, Fin y => Fin (x + y)
  | PInf, NInf | NInf, PInf => NaN
  | PInf, _ | _, PInf => PInf
  | NInf, _ | _, NInf => NInf
  end.

(** [a / b], as the exact quotient of finite numbers; the rounded quotient,
    with overflow and the sign of zero, is [B64.div].  A finite dividend
    over zero is an infinity of the dividend's sign ([0 / 0] is [NaN]);
    anything finite over an infinity is [0]. *)
Definition div (a b : number) : number :=
  match a, b with
  | NaN, _ | _, NaN => NaN
  | Fin x, Fin y =>
      if Qeq_bool y 0 then
        match (x ?= 0)%Q with Eq => NaN | Gt => PInf | Lt => NInf end
      else Fin (x / y)
  | Fin _, (PInf | NInf) => Fin 0
  | (PInf | NInf), (PInf | NInf) => NaN
  | PInf, Fin y => if Qle_bool 0 y then PInf else NInf
  | NInf, Fin y => if Qle_bool 0 y then NInf else PInf
  end.

(** Truthiness of a number: every number but [0] and [NaN]. *)
Definition truthy (a : number) : bool :=
  match a with
  | Fin x => negb (Qeq_bool x 0)
  | PInf | NInf => true
  | NaN => false
  end.

End Num.

(** An integer literal of the source. *)
Definition num (z : Z) : number := Fin (inject_Z z).

(** ** class Sampler *)

Module Sampler.

Record t : Type := mk {
  traceWindow : number;
  nextTraceStart : number
}.

(** [constructor(samplesPerSecondInput, nextTraceStart = Date.now())]; the
    default of the second argument is supplied by the caller, who reads
    the clock. *)
Definition new (samplesPerSecondInput nextTraceStart : number) : t :=
  let samplesPerSecond := samplesPerSecondInput in
  let samplesPerSecond :=
    if Num.gt samplesPerSecond (num 1000) then (num 1000) else samplesPerSecond in
  {| traceWindow := Num.div (num 1000) samplesPerSecond;
     nextTraceStart := nextTraceStart |}.

(** [shouldTrace(dateMillis)]: the answer and the sampler after the call. *)
Definition shouldTrace (this : t) (dateMillis : number) : bool * t :=
  if Num.lt dateMillis (nextTraceStart this) then (false, this)
  else (true, {| traceWindow := traceWindow this;
                 nextTraceStart := Num.add dateMillis (traceWindow this) |}).

End Sampler.

(** ** The wall clock

    [Date.now()] and [new Date().getTime()] read the process clock.  The
    clock is a sequence of integer millisecond readings, the [n]-th read of
    the process returning [clock n]; code that reads it is written in a
    state monad over the number of reads made so far. *)

Definition Clock : Type := nat -> Z.

Definition IO (A : Type) : Type := Clock -> nat -> A * nat.

#[export] Instance IO_ret : MRet IO := fun A (a : A) _ n => (a, n).

#[export] Instance IO_bind : MBind IO := fun A B (k : A -> IO B) (c : IO A) clock n =>
  let '(a, n') := c clock n in k a clock n'.

Module Date.
Definition now : IO number := fun clock n => (num (clock n), S n).
End Date.

(** The value built by a constructor run from the first reading on. *)
Definition construct {A : Type} (c : IO A) (clock : Clock) : A :=
  fst (c clock 0%nat).

(** ** Requests

    Modelled from the spec: [RequestDetails] and [SpanOptions] are declared
    by the trace agent, outside this repository.  The fields are the ones
    the source reads ([timestamp], [options?.name],
    [traceContext?.options]) and the ones the builtin filter reads ([url],
    [method]). *)

Record SpanOptions : Type := {
  name : option string
}.

Module TraceContext.
Record t : Type := {
  traceId : string;
  spanId : string;
  options : option number
}.
End TraceContext.

Record RequestDetails : Type := {
  timestamp : number;
  url : string;
  method : string;
  traceContext : option TraceContext.t;
  options : option SpanOptions
}.

(** A statement that completes normally with a value, or throws. *)
Inductive completion (A : Type) : Type :=
| Normal (a : A)
| TypeError.
Arguments Normal {A} a.
Arguments TypeError {A}.

(** ** class MultiSampler *)

Module MultiSampler.

(** The property names every object literal inherits from
    [Object.prototype]: reading one of them on [{}] yields a function or
    an object, never [undefined]. *)
Definition Object_prototype : list string :=
  [ "constructor"; "__defineGetter__"; "__defineSetter__"; "hasOwnProperty";
    "__lookupGetter__"; "__lookupSetter__"; "isPrototypeOf";
    "propertyIsEnumerable"; "toString"; "valueOf"; "__proto__";
    "toLocaleString" ]%string.

Record t : Type := mk {
  samplers : gmap string Sampler.t;
  samplesPerSecond : number;
  unnamedSampler : Sampler.t;
  samplerStart : number
}.

(** [constructor(samplesPerSecondInput)]: the unnamed sampler takes the
    default [Date.now()] of its second argument, then [samplerStart] is
    read from the clock. *)
Definition new (samplesPerSecondInput : number) : IO t :=
  let samplesPerSecond := samplesPerSecondInput in
  let samplesPerSecond :=
    if Num.gt samplesPerSecond (num 1000) then num 1000 else samplesPerSecond in
  now ← Date.now;
  let unnamedSampler := Sampler.new samplesPerSecond now in
  samplerStart ← Date.now;
  mret {| samplers := ∅;
          samplesPerSecond := samplesPerSecond;
          unnamedSampler := unnamedSampler;
          samplerStart := samplerStart |}.

(** Where a sampler handed out by [getSampler] lives in the registry. *)
Inductive place : Type :=
| Unnamed
| Keyed (name : string).

(** [this.samplers[name]]: the own property when there is one, else what
    the prototype chain gives. *)
Inductive property : Type :=
| Own (sampler : Sampler.t)
| Inherited
| Undefined.

Definition get (samplers : gmap string Sampler.t) (name : string) : property :=
  match samplers !! name with
  | Some sampler => Own sampler
  | None =>
      if bool_decide (name ∈ Object_prototype) then Inherited else Undefined
  end.

(** [getSampler(name)]: the sampler and its place, or [None] when the
    lookup found a member of [Object.prototype], which is truthy and is
    returned as it is; and the registry after the call. *)
Definition getSampler (this : t) (name : option string)
  : option (place * Sampler.t) * t :=
  match name with
  | None | Some EmptyString => (Some (Unnamed, unnamedSampler this), this)
  | Some name =>
      match get (samplers this) name with
      | Own sampler => (Some (Keyed name, sampler), this)
      | Inherited => (None, this)
      | Undefined =>
          let sampler := Sampler.new (samplesPerSecond this) (samplerStart this) in
          (Some (Keyed name, sampler),
           {| samplers := <[name := sampler]> (samplers this);
              samplesPerSecond := samplesPerSecond this;
              unnamedSampler := unnamedSampler this;
              samplerStart := samplerStart this |})
      end
  end.

(** The sampler at a place is mutated in place: write it back. *)
Definition put (this : t) (p : place) (sampler : Sampler.t) : t :=
  match p with
  | Unnamed =>
      {| samplers := samplers this;
         samplesPerSecond := samplesPerSecond this;
         unnamedSampler := sampler;
         samplerStart := samplerStart this |}
  | Keyed name =>
      {| samplers := <[name := sampler]> (samplers this);
         samplesPerSecond := samplesPerSecond this;
         unnamedSampler := unnamedSampler this;
         samplerStart := samplerStart this |}
  end.

(** [options?.name]. *)
Definition name_of (details : RequestDetails) : option string :=
  match options details with
  | Some o => name o
  | None => None
  end.

(** [shouldTrace({options, timestamp})].  Calling [shouldTrace] on a
    member of [Object.prototype] throws a [TypeError]. *)
Definition shouldTrace (this : t) (details : RequestDetails)
  : completion bool * t :=
  match getSampler this (name_of details) with
  | (Some (p, sampler), this) =>
      let '(b, sampler) := Sampler.shouldTrace sampler (timestamp details) in
      (Normal b, put this p sampler)
  | (None, this) => (TypeError, this)
  end.

End MultiSampler.

(** ** class EndToEndTracePolicy *)

(** Modelled from the spec: the builtin filter is the trace agent's
    [BuiltinTracePolicy], outside this repository.  It is taken as a
    parameter: a constructor from its configuration to a predicate on
    requests (with [samplingRate: 0] it keeps no state). *)
Inductive TraceContextHeaderBehavior : Type := DEFAULT | IGNORE | REQUIRE.

Module TracePolicyConfig.
Record t : Type := {
  ignoreMethods : list string;
  ignoreUrls : list string;
  contextHeaderBehavior : TraceContextHeaderBehavior;
  samplingRate : number
}.
End TracePolicyConfig.

Definition BuiltinTracePolicy : Type :=
  TracePolicyConfig.t -> RequestDetails -> bool.

(** The objects stored in the field [sampler : TracePolicy]: one of the two
    closures [{ shouldTrace: () => b }], or a [MultiSampler]. *)
Module TracePolicy.

Inductive t : Type :=
| Fixed (b : bool)
| Multi (m : MultiSampler.t).

Definition shouldTrace (this : t) (details : RequestDetails)
  : completion bool * t :=
  match this with
  | Fixed b => (Normal b, this)
  | Multi m =>
      let '(r, m) := MultiSampler.shouldTrace m details in (r, Multi m)
  end.

End TracePolicy.

Module EndToEndTracePolicy.

Record config : Type := {
  ignoreMethods : list string;
  ignoreUrls : list string;
  samplingRate : number
}.

Record t : Type := mk {
  builtinTracePolicy : RequestDetails -> bool;
  sampler : TracePolicy.t
}.

(** [constructor(config)].  The sampler chosen by the three-way test is
    assigned first; the assignment that follows the test replaces it. *)
Definition new (Builtin : BuiltinTracePolicy) (config : config) : IO t :=
  let builtinTracePolicy :=
    Builtin {| TracePolicyConfig.ignoreMethods := ignoreMethods config;
               TracePolicyConfig.ignoreUrls := ignoreUrls config;
               TracePolicyConfig.contextHeaderBehavior := IGNORE;
               TracePolicyConfig.samplingRate := num 0 |} in
  sampler ←
    (if Num.strict_eq (samplingRate config) (num 0) then
       mret (TracePolicy.Fixed true)
     else if Num.lt (samplingRate config) (num 0) then
       mret (TracePolicy.Fixed false)
     else
       m ← MultiSampler.new (samplingRate config);
       mret (TracePolicy.Multi m));
  sampler ←
    (m ← MultiSampler.new (samplingRate config);
     mret (TracePolicy.Multi m));
  mret {| builtinTracePolicy := builtinTracePolicy; sampler := sampler |}.

(** [details.traceContext?.options], tested for truthiness. *)
Definition in_trace (details : RequestDetails) : bool :=
  match traceContext details with
  | Some ctx =>
      match TraceContext.options ctx with
      | Some flag => Num.truthy flag
      | None => false
      end
  | None => false
  end.

(** [shouldTrace(details)]. *)
Definition shouldTrace (this : t) (details : RequestDetails)
  : completion bool * t :=
  if negb (builtinTracePolicy this details) then (Normal false, this)
  else if in_trace details then (Normal true, this)
  else
    let '(r, sampler) := TracePolicy.shouldTrace (sampler this) details in
    (r, {| builtinTracePolicy := builtinTracePolicy this;
           sampler := sampler |}).

End EndToEndTracePolicy.

(** ** Binary64 numbers

    The source's [number] as IEEE 754 binary64.  A finite value is the
    rational it denotes; every operation computes the exact rational result
    and rounds it to the nearest binary64 number, ties to the even
    significand, as [+] and [/] do in JavaScript. *)

(** [2 ^ z]. *)
Definition pow2 (z : Z) : Q := 2 ^ z.

(** The floor of the binary logarithm of a positive rational. *)
Definition flog2 (x : Q) : Z :=
  let e0 := (Z.log2 (Qnum x) - Z.log2 (Zpos (Qden x)))%Z in
  if Qle_bool (pow2 e0) x then e0 else (e0 - 1)%Z.

(** The least exponent of a normal binary64 number. *)
Definition emin : Z := (-1022)%Z.

(** The exponent of the binade of [x]; below [2 ^ emin] the numbers are
    subnormal and share the exponent [emin]. *)
Definition binade (x : Q) : Z := Z.max (flog2 x) emin.

(** The distance between consecutive binary64 numbers around [x]: the
    significand has 53 bits. *)
Definition ulp (x : Q) : Q := pow2 (binade x - 52).

(** The integer nearest to [q], the even one of the two when [q] is half
    way. *)
Definition rne (q : Q) : Z :=
  let f := Qfloor q in
  match Qcompare (q - inject_Z f) (1 # 2) with
  | Lt => f
  | Gt => (f + 1)%Z
  | Eq => if Z.even f then f else (f + 1)%Z
  end.

(** A positive rational rounded to 53 significant bits. *)
Definition rnd_pos (x : Q) : Q := Qred (inject_Z (rne (x / ulp x)) * ulp x).

(** A rational rounded to 53 significant bits, before the test of
    overflow. *)
Definition rnd (x : Q) : Q :=
  match Qcompare 0 x with
  | Lt => rnd_pos x
  | Eq => 0
  | Gt => - rnd_pos (- x)
  end.

Module B64.

(** A binary64 number: a finite value ([Fin 0] is [+0]), [-0], the two
    infinities, [NaN]. *)
Inductive t : Type :=
| Fin (q : Q)
| NegZero
| PInf
| NInf
| NaN.

(** The binary64 number nearest to the rational [x]: beyond the largest
    finite number the result is an infinity, and a negative [x] that rounds
    to zero gives [-0]. *)
Definition round (x : Q) : t :=
  let r := rnd x in
  if Qle_bool (pow2 1024) r then PInf
  else if Qle_bool r (- pow2 1024) then NInf
  else if Qeq_bool r 0 && negb (Qle_bool 0 x) then NegZero
  else Fin r.

(** A decimal literal of the source, such as [999.9]. *)
Definition lit (q : Q) : t := round q.

(** The rational a finite number denotes (both zeros denote 0). *)
Definition value (a : t) : Q :=
  match a with
  | Fin q => q
  | _ => 0
  end.

(** The sign bit. *)
Definition is_neg (a : t) : bool :=
  match a with
  | Fin q => negb (Qle_bool 0 q)
  | NegZero | NInf => true
  | PInf | NaN => false
  end.

Definition is_zero (a : t) : bool :=
  match a with
  | Fin q => Qeq_bool q 0
  | NegZero => true
  | _ => false
  end.

Definition zero (neg : bool) : t := if neg then NegZero else Fin 0.
Definition inf (neg : bool) : t := if neg then NInf else PInf.

(** [a < b]: false as soon as one side is [NaN]; the two zeros compare
    equal. *)
Definition lt (a b : t) : bool :=
  match a, b with
  | NaN, _ | _, NaN => false
  | PInf, _ => false
  | _, PInf => true
  | NInf, NInf => false
  | NInf, _ => true
  | _, NInf => false
  | _, _ => negb (Qle_bool (value b) (value a))
  end.

(** [a > b] is [b < a]. *)
Definition gt (a b : t) : bool := lt b a.

(** [a + b]: the exact sum, rounded.  An exact sum of zero is [+0], except
    [-0 + -0]. *)
Definition add (a b : t) : t :=
  match a, b with
  | NaN, _ | _, NaN => NaN
  | PInf, NInf | NInf, PInf => NaN
  | PInf, _ | _, PInf => PInf
  | NInf, _ | _, NInf => NInf
  | NegZero, NegZero => NegZero
  | _, _ =>
      let s := value a + value b in
      if Qeq_bool s 0 then Fin 0 else round s
  end.

(** [a / b]: the exact quotient, rounded; the sign of the result is the
    exclusive or of the signs.  Nonzero over zero is an infinity, [0 / 0]
    and infinity over infinity are [NaN], finite over infinity is a zero. *)
Definition div (a b : t) : t :=
  let neg := xorb (is_neg a) (is_neg b) in
  match a, b with
  | NaN, _ | _, NaN => NaN
  | (PInf | NInf), (PInf | NInf) => NaN
  | (PInf | NInf), _ => inf neg
  | _, (PInf | NInf) => zero neg
  | _, _ =>
      if is_zero b then (if is_zero a then NaN else inf neg)
      else if is_zero a then zero neg
      else round (value a / value b)
  end.

End B64.

(** An integer literal of the source, or an integer number of
    milliseconds, as a binary64 number (exact below [2 ^ 53]). *)
Definition num64 (z : Z) : B64.t := B64.Fin (inject_Z z).

(** ** class Sampler, over binary64 *)

Module Sampler64.

Record t : Type := mk {
  traceWindow : B64.t;
  nextTraceStart : B64.t
}.

(** [constructor(samplesPerSecondInput, nextTraceStart)]. *)
Definition new (samplesPerSecondInput nextTraceStart : B64.t) : t :=
  let samplesPerSecond := samplesPerSecondInput in
  let samplesPerSecond :=
    if B64.gt samplesPerSecond (num64 1000) then num64 1000
    else samplesPerSecond in
  {| traceWindow := B64.div (num64 1000) samplesPerSecond;
     nextTraceStart := nextTraceStart |}.

(** [shouldTrace(dateMillis)]: the answer and the sampler after the call. *)
Definition shouldTrace (this : t) (dateMillis : B64.t) : bool * t :=
  if B64.lt dateMillis (nextTraceStart this) then (false, this)
  else (true, {| traceWindow := traceWindow this;
                 nextTraceStart := B64.add dateMillis (traceWindow this) |}).

End Sampler64.

(** ** Call sequences

    A sequence of calls on one object: the answers in call order and the
    object after the last call.  A call that throws leaves the object as it
    was and the caller goes on with the next request. *)

Section Run.
Context {S I O : Type} (step : S -> I -> O * S).

Fixpoint run (s : S) (calls : list I) : list O * S :=
  match calls with
  | [] => ([], s)
  | c :: calls =>
      let '(o, s) := step s c in
      let '(os, s) := run s calls in
      (o :: os, s)
  end.

Definition answers (s : S) (calls : list I) : list O := fst (run s calls).
Definition after (s : S) (calls : list I) : S := snd (run s calls).
End Run.

(** ** Vocabulary of the statements *)




(** [details.traceContext?.options]: the trace-options flag of a request. *)
Definition flag_of (details : RequestDetails) : option number :=
  match traceContext details with
  | Some ctx => TraceContext.options ctx
  | None => None
  end.

(** The limiter a request is routed to: the unnamed one when the name is
    absent or empty, the one of its name otherwise. *)
Definition place_of (details : RequestDetails) : MultiSampler.place :=
  match MultiSampler.name_of details with
  | None | Some EmptyString => MultiSampler.Unnamed
  | Some name => MultiSampler.Keyed name
  end.

#[export] Instance place_eq_dec : EqDecision MultiSampler.place.
Proof. solve_decision. Defined.

(** What the registry holds at a place: the shared rate and epoch, and the
    limiter stored there (for a name, what [this.samplers[name]] gives). *)
Definition view (p : MultiSampler.place) (m : MultiSampler.t)
  : number * number * (Sampler.t + MultiSampler.property) :=
  (MultiSampler.samplesPerSecond m, MultiSampler.samplerStart m,
   match p with
   | MultiSampler.Unnamed => inl (MultiSampler.unnamedSampler m)
   | MultiSampler.Keyed name => inr (MultiSampler.get (MultiSampler.samplers m) name)
   end).

(** The three ways a request is routed and served. *)
Inductive served (m : MultiSampler.t) (d : RequestDetails)
  : completion bool * MultiSampler.t -> Prop :=
| served_unnamed :
    place_of d = MultiSampler.Unnamed ->
    served m d
      (Normal (fst (Sampler.shouldTrace (MultiSampler.unnamedSampler m) (timestamp d))),
       MultiSampler.put m MultiSampler.Unnamed
         (snd (Sampler.shouldTrace (MultiSampler.unnamedSampler m) (timestamp d))))
| served_keyed (key : string) (s : Sampler.t) :
    place_of d = MultiSampler.Keyed key ->
    (MultiSampler.get (MultiSampler.samplers m) key = MultiSampler.Own s \/
     MultiSampler.get (MultiSampler.samplers m) key = MultiSampler.Undefined /\
     s = Sampler.new (MultiSampler.samplesPerSecond m) (MultiSampler.samplerStart m)) ->
    served m d
      (Normal (fst (Sampler.shouldTrace s (timestamp d))),
       MultiSampler.put m (MultiSampler.Keyed key)
         (snd (Sampler.shouldTrace s (timestamp d))))
| served_inherited (key : string) :
    place_of d = MultiSampler.Keyed key ->
    MultiSampler.get (MultiSampler.samplers m) key = MultiSampler.Inherited ->
    served m d (TypeError, m).

(** What one call at time [t] does to the limiter seen in a view: the
    answer, and the view after the call. *)
Definition serve (v : number * number * (Sampler.t + MultiSampler.property))
    (t : number)
  : completion bool * (number * number * (Sampler.t + MultiSampler.property)) :=
  let '(rate, start, slot) := v in
  match slot with
  | inl s =>
      let r := Sampler.shouldTrace s t in
      (Normal (fst r), (rate, start, inl (snd r)))
  | inr (MultiSampler.Own s) =>
      let r := Sampler.shouldTrace s t in
      (Normal (fst r), (rate, start, inr (MultiSampler.Own (snd r))))
  | inr MultiSampler.Undefined =>
      let r := Sampler.shouldTrace (Sampler.new rate start) t in
      (Normal (fst r), (rate, start, inr (MultiSampler.Own (snd r))))
  | inr MultiSampler.Inherited => (TypeError, v)
  end.

(** The answers, among those of a sequence of calls, to the calls routed to
    place [p]. *)
Fixpoint answers_to (p : MultiSampler.place) (calls : list RequestDetails)
  (ans : list (completion bool)) : list (completion bool) :=
  match calls, ans with
  | d :: calls, r :: ans =>
      if decide (place_of d = p) then r :: answers_to p calls ans
      else answers_to p calls ans
  | _, _ => []
  end.

(** The calls of a sequence routed to place [p]. *)
Definition calls_to (p : MultiSampler.place) (calls : list RequestDetails)
  : list RequestDetails :=
  List.filter (fun d => bool_decide (place_of d = p)) calls.

(** A request with the given name, time and trace-options flag. *)
Definition request (key : option string) (t : Z) (flag : option number)
  : RequestDetails :=
  {| timestamp := num t;
     url := "/";
     method := "GET";
     traceContext :=
       match flag with
       | Some f =>
           Some {| TraceContext.traceId := "0af7651916cd43dd8448eb211c80319c";
                   TraceContext.spanId := "1";
                   TraceContext.options := Some f |}
       | None => None
       end;
     options := Some {| name := key |} |}.

(** A filter to instantiate the builtin one in examples: it rejects the
    requests whose URL or method is listed in the configuration. *)
Definition listed_filter : BuiltinTracePolicy :=
  fun cfg d =>
    negb (existsb (String.eqb (url d)) (TracePolicyConfig.ignoreUrls cfg)) &&
    negb (existsb (String.eqb (method d)) (TracePolicyConfig.ignoreMethods cfg)).

(** A liveness probe: a request for [/healthz] under the given name. *)
Definition probe (key : option string) (t : Z) : RequestDetails :=
  {| timestamp := num t;
     url := "/healthz";
     method := "GET";
     traceContext := None;
     options := Some {| name := key |} |}.

(** The policy built, when the clock reads 0, for a sampling rate and a
    list of ignored URLs. *)
Definition policy_at_0 (Builtin : BuiltinTracePolicy) (ignored : list string)
    (rate : Z) : EndToEndTracePolicy.t :=
  construct
    (EndToEndTracePolicy.new Builtin
       {| EndToEndTracePolicy.ignoreMethods := [];
          EndToEndTracePolicy.ignoreUrls := ignored;
          EndToEndTracePolicy.samplingRate := num rate |})
    (fun _ => 0%Z).

(** ** Vocabulary of the further properties *)

(** The window of the limiters a registry builds. *)
Definition window_of (m : MultiSampler.t) : number :=
  Sampler.traceWindow
    (Sampler.new (MultiSampler.samplesPerSecond m) (MultiSampler.samplerStart m)).

(** What holds of a registry all along its life: its limiters all have the
    registry's window, and none is stored under the empty name or under a
    name of [Object.prototype]. *)
Definition registry_ok (m : MultiSampler.t) : Prop :=
  Sampler.traceWindow (MultiSampler.unnamedSampler m) = window_of m /\
  forall (k : string) (s : Sampler.t),
    MultiSampler.samplers m !! k = Some s ->
    k <> EmptyString /\ (k ∉ MultiSampler.Object_prototype) /\
    Sampler.traceWindow s = window_of m.

(** The name under which a request makes the registry keep a limiter, if
    it does. *)
Definition stored_name (d : RequestDetails) : option string :=
  match place_of d with
  | MultiSampler.Keyed k =>
      if bool_decide (k ∈ MultiSampler.Object_prototype) then None else Some k
  | MultiSampler.Unnamed => None
  end.

Definition stored_names (calls : list RequestDetails) : gset string :=
  list_to_set (omap stored_name calls).

(** A request reaches the rate stage of a policy with builtin filter [f]
    when the filter admits it and it is not part of an active trace. *)
Definition reaches (f : RequestDetails -> bool) (d : RequestDetails) : bool :=
  f d && negb (EndToEndTracePolicy.in_trace d).

(** The answers of a policy with builtin filter [f], put together from the
    answers [rate_ans] its rate stage gives to the requests reaching it. *)
Fixpoint weave (f : RequestDetails -> bool) (calls : list RequestDetails)
    (rate_ans : list (completion bool)) : list (completion bool) :=
  match calls with
  | [] => []
  | d :: calls =>
      if negb (f d) then Normal false :: weave f calls rate_ans
      else if EndToEndTracePolicy.in_trace d then
        Normal true :: weave f calls rate_ans
      else
        match rate_ans with
        | r :: rate_ans => r :: weave f calls rate_ans
        | [] => []
        end
  end.

(** The rate stage of a policy is a registry in order. *)
Definition policy_ok (p : EndToEndTracePolicy.t) : Prop :=
  exists m : MultiSampler.t,
    EndToEndTracePolicy.sampler p = TracePolicy.Multi m /\ registry_ok m.

(** Every limiter of the registry, and every limiter it may still build,
    has its next admission time at [T] or before. *)
Definition ready_by (T : Q) (m : MultiSampler.t) : Prop :=
  (exists e : Q, MultiSampler.samplerStart m = Fin e /\ e <= T) /\
  (exists n : Q,
      Sampler.nextTraceStart (MultiSampler.unnamedSampler m) = Fin n /\ n <= T) /\
  forall (k : string) (s : Sampler.t),
    MultiSampler.samplers m !! k = Some s ->
    exists n : Q, Sampler.nextTraceStart s = Fin n /\ n <= T.

(** The answer of a policy whose rate stage never rejects: [false] on a
    filtered request, [true] on any other, but for the throw on the names
    of [Object.prototype]. *)
Definition unlimited_answer (f : RequestDetails -> bool) (d : RequestDetails)
  : completion bool :=
  if negb (f d) then Normal false
  else if EndToEndTracePolicy.in_trace d then Normal true
  else
    match place_of d with
    | MultiSampler.Keyed k =>
        if bool_decide (k ∈ MultiSampler.Object_prototype) then TypeError
        else Normal true
    | MultiSampler.Unnamed => Normal true
    end.

(** The limiter at a place has its next admission time at infinity. *)
Definition spent (p : MultiSampler.place) (m : MultiSampler.t) : Prop :=
  match p with
  | MultiSampler.Unnamed =>
      Sampler.nextTraceStart (MultiSampler.unnamedSampler m) = PInf
  | MultiSampler.Keyed k =>
      exists s : Sampler.t,
        MultiSampler.samplers m !! k = Some s /\ Sampler.nextTraceStart s = PInf
  end.

(** The request is stamped with a finite time. *)
Definition finite_time (d : RequestDetails) : Prop :=
  exists t : Q, timestamp d = Fin t.


(** The binary64 number that a machine float is: the reference the model
    [B64] is compared with. *)
Definition of_float (f : PrimFloat.float) : B64.t :=
  match FloatOps.Prim2SF f with
  | SpecFloat.S754_zero false => B64.Fin 0
  | SpecFloat.S754_zero true => B64.NegZero
  | SpecFloat.S754_infinity false => B64.PInf
  | SpecFloat.S754_infinity true => B64.NInf
  | SpecFloat.S754_nan => B64.NaN
  | SpecFloat.S754_finite s m e =>
      let q := Qred (inject_Z (Zpos m) * pow2 e) in
      B64.Fin (if s then - q else q)
  end.

(** ** Vocabulary of the statements over binary64 *)

(** [v] is a number at least [b]: a finite number at least [b], or
    [Infinity]. *)
Definition above (b : Q) (v : B64.t) : Prop :=
  match v with
  | B64.Fin n => b <= n
  | B64.NegZero => b <= 0
  | B64.PInf => True
  | B64.NInf | B64.NaN => False
  end.


(** * Properties *)

(** ** Facts on call sequences *)

Section RunFacts.
Context {S I O : Type} (step : S -> I -> O * S).

Lemma run_cons (s : S) (c : I) (calls : list I) :
  run step s (c :: calls) =
    (fst (step s c) :: answers step (snd (step s c)) calls,
     after step (snd (step s c)) calls).
Proof.
  unfold answers, after. cbn [run].
  destruct (step s c) as [o s']. cbn [fst snd].
  now destruct (run step s' calls).
Qed.

Lemma answers_cons (s : S) (c : I) (calls : list I) :
  answers step s (c :: calls) =
    fst (step s c) :: answers step (snd (step s c)) calls.
Proof. unfold answers at 1. now rewrite run_cons. Qed.

Lemma after_cons (s : S) (c : I) (calls : list I) :
  after step s (c :: calls) = after step (snd (step s c)) calls.
Proof. unfold after at 1. now rewrite run_cons. Qed.

(** The answer to the [j]-th call is the answer of one step taken from
    the object left by the calls before it. *)
Lemma answers_lookup (s : S) (calls : list I) (j : nat) (c : I) :
  calls !! j = Some c ->
  answers step s calls !! j = Some (fst (step (after step s (take j calls)) c)).
Proof.
  revert s j. induction calls as [|c0 calls IH]; intros s j Hj; [discriminate|].
  rewrite answers_cons. destruct j as [|j].
  - injection Hj as ->. reflexivity.
  - cbn [take]. rewrite after_cons. now apply IH.
Qed.

Lemma after_app (s : S) (calls calls' : list I) :
  after step s (calls ++ calls') = after step (after step s calls) calls'.
Proof.
  revert s. induction calls as [|c calls IH]; intros s; [reflexivity|].
  cbn [app]. now rewrite !after_cons, IH.
Qed.

(** The object before the [j]-th call, seen from an earlier call [i]: one
    step at the [i]-th call, then the calls strictly between the two. *)
Lemma after_take_split (s : S) (calls : list I) (i j : nat) (c : I) :
  (i < j)%nat -> calls !! i = Some c ->
  after step s (take j calls) =
    after step (snd (step (after step s (take i calls)) c))
          (drop (Datatypes.S i) (take j calls)).
Proof.
  intros Hij Hi.
  assert (Hi' : take j calls !! i = Some c).
  { rewrite lookup_take_lt by exact Hij. exact Hi. }
  rewrite <- (take_drop_middle _ _ _ Hi') at 1.
  rewrite take_take, Nat.min_l by lia.
  now rewrite after_app, after_cons.
Qed.
End RunFacts.

(** ** Comparison of finite numbers *)


(** ** Sampler *)

Lemma Sampler_window_kept (s : Sampler.t) (now : number) :
  Sampler.traceWindow (snd (Sampler.shouldTrace s now)) = Sampler.traceWindow s.
Proof. unfold Sampler.shouldTrace. now destruct (Num.lt _ _). Qed.



(** A call on a sampler with a finite window [w] and a finite next
    admission time [n], at a finite time [t]. *)
Lemma Sampler_shouldTrace_Fin (w n t : Q) :
  Sampler.shouldTrace (Sampler.mk (Fin w) (Fin n)) (Fin t) =
    if Qle_bool n t then (true, Sampler.mk (Fin w) (Fin (t + w)))
    else (false, Sampler.mk (Fin w) (Fin n)).
Proof.
  unfold Sampler.shouldTrace. simpl. now destruct (Qle_bool n t).
Qed.



(** C9.  A rejected call leaves the sampler as it was, so any number of
    calls repeated at the same time are all rejected and the sampler is
    still the one before the first of them. *)
Theorem Sampler_reject_idempotent (s : Sampler.t) (t : number) (n : nat) :
  fst (Sampler.shouldTrace s t) = false ->
  snd (Sampler.shouldTrace s t) = s /\
  run Sampler.shouldTrace s (repeat t n) = (repeat false n, s).
Proof.
  intros Hrej.
  assert (Hcall : Sampler.shouldTrace s t = (false, s)).
  { unfold Sampler.shouldTrace in *.
    destruct (Num.lt t (Sampler.nextTraceStart s)); [reflexivity|discriminate]. }
  split; [now rewrite Hcall|].
  induction n as [|n IH]; [reflexivity|].
  cbn [repeat run]. now rewrite Hcall, IH.
Qed.

Lemma Sampler_reject_idempotent_witness :
  fst (Sampler.shouldTrace (Sampler.mk (num 500) (num 500)) (num 100)) = false /\
  run Sampler.shouldTrace (Sampler.mk (num 500) (num 500)) (repeat (num 100) 3)
  = (repeat false 3, Sampler.mk (num 500) (num 500)).
Proof.
  split; [reflexivity|].
  apply (Sampler_reject_idempotent (Sampler.mk (num 500) (num 500)) (num 100) 3).
  reflexivity.
Defined.

(** ** Admissions of one sampler over time *)

(** C6, the exact-increase reading refuted: the sampler built for 2 per
    second (a window of 500 ms) with its next admission time at 0, called
    at 100, admits the call and its next admission time becomes 600, not
    0 + 500. *)
Lemma Sampler_increase_not_exact :
  let s := Sampler.new (num 2) (num 0) in
  fst (Sampler.shouldTrace s (num 100)) = true /\
  Num.strict_eq (Sampler.nextTraceStart (snd (Sampler.shouldTrace s (num 100))))
                (Num.add (Sampler.nextTraceStart s) (Sampler.traceWindow s))
  = false.
Proof. split; reflexivity. Qed.

(** What an admission stores is the sum [dateMillis + this.traceWindow] as
    binary64 computes it: the amended statement of C6, and the statements
    of C7 and C10, are made over [Sampler64], in the last part of the
    file.  The three lemmas that follow are on the exact sum. *)



Lemma Sampler_after_window (s : Sampler.t) (calls : list number) :
  Sampler.traceWindow (after Sampler.shouldTrace s calls) = Sampler.traceWindow s.
Proof.
  revert s. induction calls as [|c calls IH]; intros s; [reflexivity|].
  now rewrite after_cons, IH, Sampler_window_kept.
Qed.

(** ** Counting in an interval *)




(** ** The keyed registry *)

Lemma get_insert_eq (samplers : gmap string Sampler.t) (name : string)
    (s : Sampler.t) :
  MultiSampler.get (<[name := s]> samplers) name = MultiSampler.Own s.
Proof. unfold MultiSampler.get. now rewrite lookup_insert_eq. Qed.

Lemma get_insert_ne (samplers : gmap string Sampler.t) (name name' : string)
    (s : Sampler.t) :
  name <> name' ->
  MultiSampler.get (<[name := s]> samplers) name' = MultiSampler.get samplers name'.
Proof. intros H. unfold MultiSampler.get. now rewrite lookup_insert_ne. Qed.

Lemma put_insert (m : MultiSampler.t) (key : string) (s0 s : Sampler.t) :
  MultiSampler.put
    (MultiSampler.mk (<[key := s0]> (MultiSampler.samplers m))
                     (MultiSampler.samplesPerSecond m)
                     (MultiSampler.unnamedSampler m)
                     (MultiSampler.samplerStart m))
    (MultiSampler.Keyed key) s
  = MultiSampler.put m (MultiSampler.Keyed key) s.
Proof.
  unfold MultiSampler.put. cbn. now rewrite insert_insert_eq.
Qed.

Lemma shouldTrace_served (m : MultiSampler.t) (d : RequestDetails) :
  served m d (MultiSampler.shouldTrace m d).
Proof.
  unfold MultiSampler.shouldTrace, MultiSampler.getSampler.
  pose proof (eq_refl (place_of d)) as Hp. unfold place_of at 2 in Hp.
  destruct (MultiSampler.name_of d) as [[|c key]|].
  - destruct (Sampler.shouldTrace _ _) as [b s] eqn:E.
    pose proof (served_unnamed m d Hp) as H. now rewrite E in H.
  - destruct (MultiSampler.get _ _) as [s| |] eqn:G.
    + destruct (Sampler.shouldTrace _ _) as [b s'] eqn:E.
      pose proof (served_keyed m d _ s Hp (or_introl G)) as H.
      now rewrite E in H.
    + now apply served_inherited with (key := String c key).
    + destruct (Sampler.shouldTrace _ _) as [b s'] eqn:E.
      pose proof (served_keyed m d _ _ Hp (or_intror (conj G eq_refl))) as H.
      rewrite E in H. cbn [fst snd] in H. now rewrite put_insert.
  - destruct (Sampler.shouldTrace _ _) as [b s] eqn:E.
    pose proof (served_unnamed m d Hp) as H. now rewrite E in H.
Qed.

Lemma view_put_other (m : MultiSampler.t) (p q : MultiSampler.place)
    (s : Sampler.t) :
  p <> q -> view q (MultiSampler.put m p s) = view q m.
Proof.
  intros Hne. unfold view.
  destruct p as [|key], q as [|key']; cbn; try reflexivity; try congruence.
  rewrite get_insert_ne; [reflexivity | congruence].
Qed.

Lemma view_put_same (m : MultiSampler.t) (p : MultiSampler.place)
    (s : Sampler.t) :
  view p (MultiSampler.put m p s) =
    (MultiSampler.samplesPerSecond m, MultiSampler.samplerStart m,
     match p with
     | MultiSampler.Unnamed => inl s
     | MultiSampler.Keyed _ => inr (MultiSampler.Own s)
     end).
Proof.
  unfold view. destruct p as [|key]; cbn; [reflexivity|].
  now rewrite get_insert_eq.
Qed.

(** A call leaves every place but its own as it was. *)
Lemma shouldTrace_frame (m : MultiSampler.t) (d : RequestDetails)
    (p : MultiSampler.place) :
  p <> place_of d ->
  view p (snd (MultiSampler.shouldTrace m d)) = view p m.
Proof.
  intros Hne. generalize (shouldTrace_served m d).
  generalize (MultiSampler.shouldTrace m d). intros r H.
  destruct H as [Hp | key s Hp _ | key Hp _]; cbn [snd];
    try reflexivity; apply view_put_other; congruence.
Qed.

(** The answer of a call, and what it leaves at its own place, are
    computed from what the registry held at that place. *)
Lemma shouldTrace_local (m : MultiSampler.t) (d : RequestDetails) :
  fst (MultiSampler.shouldTrace m d)
    = fst (serve (view (place_of d) m) (timestamp d)) /\
  view (place_of d) (snd (MultiSampler.shouldTrace m d))
    = snd (serve (view (place_of d) m) (timestamp d)).
Proof.
  generalize (shouldTrace_served m d).
  generalize (MultiSampler.shouldTrace m d). intros r H.
  destruct H as [Hp | key s Hp [G | [G ->]] | key Hp G]; rewrite Hp;
    cbn [fst snd]; rewrite ?view_put_same; unfold view, serve;
    rewrite ?G; split; reflexivity.
Qed.

(** C8.  A call routed to one place of the registry changes nothing at any
    other place (a name's limiter, or the unnamed limiter).  So the answers
    given to the calls routed to a place [p], within any interleaving with
    calls routed elsewhere, are the answers the calls to [p] get on their
    own, and depend on the registry only through the rate, the epoch and
    the limiter held at [p]. *)
Theorem MultiSampler_places_independent (p : MultiSampler.place) :
  (forall (m : MultiSampler.t) (d : RequestDetails),
      p <> place_of d ->
      view p (snd (MultiSampler.shouldTrace m d)) = view p m)
  /\
  (forall (calls : list RequestDetails) (m1 m2 : MultiSampler.t),
      view p m1 = view p m2 ->
      answers_to p calls (answers MultiSampler.shouldTrace m1 calls)
        = answers MultiSampler.shouldTrace m2 (calls_to p calls) /\
      view p (after MultiSampler.shouldTrace m1 calls)
        = view p (after MultiSampler.shouldTrace m2 (calls_to p calls))).
Proof.
  split; [intros m d; apply shouldTrace_frame|].
  induction calls as [|d calls IH]; intros m1 m2 Hv; [now split|].
  rewrite answers_cons, after_cons. cbn [answers_to calls_to List.filter].
  destruct (decide (place_of d = p)) as [Hd | Hd].
  - rewrite bool_decide_eq_true_2 by exact Hd.
    rewrite answers_cons, after_cons.
    destruct (shouldTrace_local m1 d) as [Ha1 Hv1].
    destruct (shouldTrace_local m2 d) as [Ha2 Hv2].
    rewrite Hd in Ha1, Hv1, Ha2, Hv2. rewrite Hv in Ha1, Hv1.
    destruct (IH (snd (MultiSampler.shouldTrace m1 d))
                 (snd (MultiSampler.shouldTrace m2 d))) as [IHa IHv];
      [congruence|].
    fold (calls_to p calls). split; [congruence | exact IHv].
  - rewrite bool_decide_eq_false_2 by exact Hd.
    apply IH. rewrite shouldTrace_frame by congruence. exact Hv.
Qed.




Lemma MultiSampler_places_independent_witness :
  let m := construct (MultiSampler.new (num 2)) (fun _ => 0%Z) in
  let calls := [request (Some "A") 0 None; request (Some "B") 50 None;
                request None 0 None; request (Some "A") 100 None] in
  let p := MultiSampler.Keyed "A" in
  p <> place_of (request (Some "B") 50 None) /\
  view p (snd (MultiSampler.shouldTrace m (request (Some "B") 50 None)))
    = view p m /\
  view p m = view p m /\
  answers_to p calls (answers MultiSampler.shouldTrace m calls)
    = answers MultiSampler.shouldTrace m (calls_to p calls).
Proof.
  intros m calls p.
  assert (Hne : p <> place_of (request (Some "B") 50 None))
    by (vm_compute; discriminate).
  split; [exact Hne|]. split.
  - apply (proj1 (MultiSampler_places_independent p) m _ Hne).
  - split; [reflexivity|].
    apply (proj2 (MultiSampler_places_independent p) calls m m eq_refl).
Defined.

(** ** The end-to-end policy *)

Lemma in_trace_flag (d : RequestDetails) :
  EndToEndTracePolicy.in_trace d =
    match flag_of d with
    | Some flag => Num.truthy flag
    | None => false
    end.
Proof.
  unfold EndToEndTracePolicy.in_trace, flag_of.
  now destruct (traceContext d).
Qed.

Lemma EndToEndTracePolicy_reject (p : EndToEndTracePolicy.t) (d : RequestDetails) :
  EndToEndTracePolicy.builtinTracePolicy p d = false ->
  EndToEndTracePolicy.shouldTrace p d = (Normal false, p).
Proof.
  intros H. unfold EndToEndTracePolicy.shouldTrace. now rewrite H.
Qed.

(** C3.  On a request the builtin filter admits: when the trace-options
    flag is present and non-zero the answer is [true] and the rate stage
    is not consulted (the policy is unchanged); when the flag is absent or
    zero the answer is the one of the rate stage.  A request the filter
    rejects is answered [false] whatever its flag.  For instance, with one
    admission per second, key K at 0 ms is admitted, K at 1 ms is rejected
    by the rate stage, and K at 1 ms carrying flag 1 is answered [true]
    although the rate stage rejects it. *)
Theorem EndToEndTracePolicy_active_trace
    (p : EndToEndTracePolicy.t) (d : RequestDetails) :
  (EndToEndTracePolicy.builtinTracePolicy p d = true ->
   (exists q : Q, flag_of d = Some (Fin q) /\ ~ q == 0) ->
   EndToEndTracePolicy.shouldTrace p d = (Normal true, p))
  /\
  (EndToEndTracePolicy.builtinTracePolicy p d = true ->
   (flag_of d = None \/ exists q : Q, flag_of d = Some (Fin q) /\ q == 0) ->
   EndToEndTracePolicy.shouldTrace p d =
     (fst (TracePolicy.shouldTrace (EndToEndTracePolicy.sampler p) d),
      EndToEndTracePolicy.mk
        (EndToEndTracePolicy.builtinTracePolicy p)
        (snd (TracePolicy.shouldTrace (EndToEndTracePolicy.sampler p) d))))
  /\
  (EndToEndTracePolicy.builtinTracePolicy p d = false ->
   EndToEndTracePolicy.shouldTrace p d = (Normal false, p))
  /\
  (let policy := policy_at_0 listed_filter ["/healthz"] 1 in
   let spent :=
     after EndToEndTracePolicy.shouldTrace policy
       [request (Some "K") 0 None; request (Some "K") 1 None] in
   answers EndToEndTracePolicy.shouldTrace policy
     [request (Some "K") 0 None; request (Some "K") 1 None]
   = [Normal true; Normal false] /\
   fst (TracePolicy.shouldTrace (EndToEndTracePolicy.sampler spent)
          (request (Some "K") 1 (Some (num 1)))) = Normal false /\
   fst (EndToEndTracePolicy.shouldTrace spent
          (request (Some "K") 1 (Some (num 1)))) = Normal true).
Proof.
  split; [|split; [|split]].
  - intros Hf (q & Hq & Hnz). unfold EndToEndTracePolicy.shouldTrace.
    rewrite Hf, in_trace_flag, Hq. cbn [negb Num.truthy].
    destruct (Qeq_bool q 0) eqn:E; [|reflexivity].
    apply Qeq_bool_iff in E. contradiction.
  - intros Hf Hflag. unfold EndToEndTracePolicy.shouldTrace.
    rewrite Hf, in_trace_flag. cbn [negb].
    assert (Hz : match flag_of d with
                 | Some flag => Num.truthy flag
                 | None => false
                 end = false).
    { destruct Hflag as [-> | (q & -> & Hq)]; [reflexivity|].
      cbn [Num.truthy]. apply negb_false_iff, Qeq_bool_iff, Hq. }
    rewrite Hz. now destruct (TracePolicy.shouldTrace _ _).
  - apply EndToEndTracePolicy_reject.
  - vm_compute. repeat split.
Qed.

Lemma EndToEndTracePolicy_active_trace_witness :
  let policy := policy_at_0 listed_filter ["/healthz"] 1 in
  let d := request (Some "K") 1 (Some (num 1)) in
  EndToEndTracePolicy.builtinTracePolicy policy d = true /\
  (exists q : Q, flag_of d = Some (Fin q) /\ ~ q == 0) /\
  EndToEndTracePolicy.shouldTrace policy d = (Normal true, policy).
Proof.
  intros policy d.
  assert (Hflag : exists q : Q, flag_of d = Some (Fin q) /\ ~ q == 0)
    by (exists 1; split; [reflexivity | discriminate]).
  split; [reflexivity|]. split; [exact Hflag|].
  apply (proj1 (EndToEndTracePolicy_active_trace policy d) eq_refl Hflag).
Defined.

(** C4.  A request the builtin filter rejects is answered [false] and
    leaves the policy, with every limiter of its rate stage, as it was.  So
    after any number of rejected requests the policy is the one before
    them, and the next request is answered as if they had not been made. *)
Theorem EndToEndTracePolicy_filtered_out
    (p : EndToEndTracePolicy.t) (ds : list RequestDetails) (d' : RequestDetails) :
  Forall (fun d => EndToEndTracePolicy.builtinTracePolicy p d = false) ds ->
  run EndToEndTracePolicy.shouldTrace p ds
    = (repeat (Normal false) (length ds), p) /\
  EndToEndTracePolicy.shouldTrace (after EndToEndTracePolicy.shouldTrace p ds) d'
    = EndToEndTracePolicy.shouldTrace p d'.
Proof.
  intros Hall.
  assert (Hrun : run EndToEndTracePolicy.shouldTrace p ds
                 = (repeat (Normal false) (length ds), p)).
  { induction Hall as [|d ds Hd _ IH]; [reflexivity|].
    cbn [run length repeat].
    now rewrite (EndToEndTracePolicy_reject p d Hd), IH. }
  split; [exact Hrun|]. unfold after. now rewrite Hrun.
Qed.

Lemma EndToEndTracePolicy_filtered_out_witness :
  let policy := policy_at_0 listed_filter ["/healthz"] 1 in
  let probes := [probe (Some "K") 0; probe (Some "K") 1; probe (Some "K") 2] in
  Forall (fun d => EndToEndTracePolicy.builtinTracePolicy policy d = false)
         probes /\
  EndToEndTracePolicy.shouldTrace
    (after EndToEndTracePolicy.shouldTrace policy probes)
    (request (Some "K") 3 None)
  = EndToEndTracePolicy.shouldTrace policy (request (Some "K") 3 None).
Proof.
  intros policy probes.
  assert (Hall : Forall
                   (fun d => EndToEndTracePolicy.builtinTracePolicy policy d = false)
                   probes)
    by (repeat constructor).
  split; [exact Hall|].
  apply (EndToEndTracePolicy_filtered_out policy probes _ Hall).
Defined.

(** C1, on the code.  Whatever the sampling rate, the rate stage of the
    policy the constructor returns is a keyed registry built for that rate:
    the choice made by the three-way test on the rate is replaced by the
    assignment that follows it.  With rate -1 the first request for key A
    is therefore answered [true], and so is the next one; with rate 0 the
    window of the registry is infinite, and the second request for key A is
    answered [false]. *)
Theorem EndToEndTracePolicy_rate_stage_is_registry
    (Builtin : BuiltinTracePolicy) (config : EndToEndTracePolicy.config)
    (clock : Clock) :
  (exists reads : nat,
      EndToEndTracePolicy.sampler
        (construct (EndToEndTracePolicy.new Builtin config) clock)
      = TracePolicy.Multi
          (fst (MultiSampler.new (EndToEndTracePolicy.samplingRate config)
                                 clock reads)))
  /\
  answers EndToEndTracePolicy.shouldTrace (policy_at_0 listed_filter [] (-1))
    [request (Some "A") 0 None; request (Some "A") 1 None]
  = [Normal true; Normal true]
  /\
  answers EndToEndTracePolicy.shouldTrace (policy_at_0 listed_filter [] 0)
    [request (Some "A") 0 None; request (Some "A") 1 None]
  = [Normal true; Normal false].
Proof.
  split; [|split; vm_compute; reflexivity].
  unfold construct, EndToEndTracePolicy.new.
  destruct (Num.strict_eq _ _); [exists 0%nat; reflexivity|].
  destruct (Num.lt _ _); [exists 0%nat; reflexivity|].
  exists 2%nat. reflexivity.
Qed.

(** * Further properties of the code *)

(** ** Sampler: the cap on the rate *)





(** ** Sampler: rates that are not positive *)

(** The window of a sampler built for a negative rate is negative. *)
Lemma Sampler_new_negative (r : Q) (seed : number) :
  r < 0 ->
  exists w : Q, w < 0 /\ Sampler.new (Fin r) seed = Sampler.mk (Fin w) seed.
Proof.
  intros Hr. unfold Sampler.new, Num.gt, num. cbn [Num.lt].
  assert (E : Qle_bool r (inject_Z 1000) = true).
  { apply Qle_bool_iff. change (inject_Z 1000) with 1000. lra. }
  rewrite E. cbn [negb Num.div].
  assert (E0 : Qeq_bool r 0 = false).
  { destruct (Qeq_bool r 0) eqn:E0; [|reflexivity].
    apply Qeq_bool_iff in E0. lra. }
  rewrite E0. exists (inject_Z 1000 / r). split; [|reflexivity].
  change (inject_Z 1000) with 1000.
  assert (Hm : r * (1000 / r) == 1000) by (apply Qmult_div_r; lra).
  apply Qnot_le_lt. intros Hw.
  set (x := 1000 / r) in *.
  assert (Hle : x * - r >= 0 * - r)
    by (apply Qmult_le_compat_r; [assumption | lra]).
  assert (Hx : x * - r == - (r * x)) by ring.
  lra.
Qed.

Lemma Sampler_negative_window_run (w : Q) (times : list Q) (n : Q) :
  w < 0 -> Sorted Qle (n :: times) ->
  answers Sampler.shouldTrace (Sampler.mk (Fin w) (Fin n)) (Fin <$> times)
  = repeat true (length times).
Proof.
  intros Hw. revert n. induction times as [|t times IH]; intros n Hs;
    [reflexivity|].
  apply Sorted_inv in Hs. destruct Hs as [Hs Hd].
  apply HdRel_inv in Hd.
  rewrite fmap_cons, answers_cons, Sampler_shouldTrace_Fin.
  assert (E : Qle_bool n t = true) by now apply Qle_bool_iff.
  rewrite E. cbn [fst snd length repeat]. f_equal.
  apply IH. apply Sorted_inv in Hs. destruct Hs as [Hs Hd'].
  constructor; [assumption|].
  destruct Hd' as [|t' times' Hd']; constructor. lra.
Qed.

(** X2.  A sampler built for a negative rate never rejects: called at
    non-decreasing times, the first of them not before its seed, it admits
    every call. *)
Theorem Sampler_negative_rate_never_rejects (r seed : Q) (times : list Q) :
  r < 0 -> Sorted Qle (seed :: times) ->
  answers Sampler.shouldTrace (Sampler.new (Fin r) (Fin seed)) (Fin <$> times)
  = repeat true (length times).
Proof.
  intros Hr Hs.
  destruct (Sampler_new_negative r (Fin seed) Hr) as (w & Hw & ->).
  now apply Sampler_negative_window_run.
Qed.

Lemma Sampler_negative_rate_never_rejects_witness :
  -1 < 0 /\ Sorted Qle [0; 0; 0; 7; 7; 1000] /\
  answers Sampler.shouldTrace (Sampler.new (Fin (-1)) (Fin 0))
    (Fin <$> [0; 0; 7; 7; 1000])
  = repeat true 5.
Proof.
  assert (Hs : Sorted Qle [0; 0; 0; 7; 7; 1000])
    by (repeat constructor; discriminate).
  split; [reflexivity|]. split; [exact Hs|].
  apply (Sampler_negative_rate_never_rejects (-1) 0 [0; 0; 7; 7; 1000] eq_refl Hs).
Defined.

(** A sampler whose window and next admission time are both infinite
    rejects every call at a finite time. *)
Lemma Sampler_infinite_run (times : list Q) :
  run Sampler.shouldTrace (Sampler.mk PInf PInf) (Fin <$> times)
  = (repeat false (length times), Sampler.mk PInf PInf).
Proof.
  induction times as [|t times IH]; [reflexivity|].
  rewrite fmap_cons, run_cons. unfold answers, after.
  cbn [fst snd Sampler.shouldTrace Sampler.nextTraceStart Num.lt].
  now rewrite IH.
Qed.

(** X3.  A sampler built for the rate 0 has an infinite window: once it has
    admitted a call, at any point of its life, it rejects every later call. *)
Theorem Sampler_zero_rate_admits_once
    (seed : number) (before : list Q) (t : Q) (later : list Q) :
  let s := after Sampler.shouldTrace (Sampler.new (num 0) seed) (Fin <$> before) in
  fst (Sampler.shouldTrace s (Fin t)) = true ->
  answers Sampler.shouldTrace (snd (Sampler.shouldTrace s (Fin t))) (Fin <$> later)
  = repeat false (length later).
Proof.
  intros s Hadm.
  assert (HW : Sampler.traceWindow s = PInf)
    by (subst s; now rewrite Sampler_after_window).
  destruct s as [W n]. cbn [Sampler.traceWindow] in HW. subst W.
  unfold Sampler.shouldTrace in Hadm |- *.
  cbn [Sampler.nextTraceStart Sampler.traceWindow] in Hadm |- *.
  destruct (Num.lt (Fin t) n); [discriminate|].
  cbn [snd Num.add]. unfold answers. now rewrite Sampler_infinite_run.
Qed.

Lemma Sampler_zero_rate_admits_once_witness :
  fst (Sampler.shouldTrace
         (after Sampler.shouldTrace (Sampler.new (num 0) (num 10)) (Fin <$> [3; 5]))
         (Fin 10)) = true /\
  answers Sampler.shouldTrace
    (snd (Sampler.shouldTrace
            (after Sampler.shouldTrace (Sampler.new (num 0) (num 10)) (Fin <$> [3; 5]))
            (Fin 10)))
    (Fin <$> [10; 5000; 86400000])
  = repeat false 3.
Proof.
  split; [reflexivity|].
  apply (Sampler_zero_rate_admits_once (num 10) [3; 5] 10 [10; 5000; 86400000]).
  reflexivity.
Defined.

(** ** Sampler: guaranteed admission *)

(** The next admission time after a sequence of calls is the one before
    them, or one window after one of the calls. *)
Lemma Sampler_next_origin (w : Q) (times : list Q) (n : Q) :
  exists n' : Q,
    after Sampler.shouldTrace (Sampler.mk (Fin w) (Fin n)) (Fin <$> times)
    = Sampler.mk (Fin w) (Fin n') /\
    (n' = n \/ Exists (fun x => n' = x + w) times).
Proof.
  revert n. induction times as [|t times IH]; intros n.
  - exists n. split; [reflexivity | now left].
  - rewrite fmap_cons, after_cons, Sampler_shouldTrace_Fin.
    destruct (Qle_bool n t); cbn [snd].
    + destruct (IH (t + w)) as (n' & Hrun & [-> | Hex]).
      * exists (t + w). split; [assumption|]. right. now constructor.
      * exists n'. split; [assumption|]. right. now constructor 2.
    + destruct (IH n) as (n' & Hrun & [-> | Hex]).
      * exists n. split; [assumption | now left].
      * exists n'. split; [assumption|]. right. now constructor 2.
Qed.

(** X4.  No starvation: a call made at least one window after every
    earlier call, and not before the time the sampler was first willing to
    admit, is admitted, whatever the earlier calls and their answers. *)
Theorem Sampler_idle_window_admits (w n t : Q) (times : list Q) :
  n <= t -> Forall (fun x => x + w <= t) times ->
  fst (Sampler.shouldTrace
         (after Sampler.shouldTrace (Sampler.mk (Fin w) (Fin n)) (Fin <$> times))
         (Fin t)) = true.
Proof.
  intros Hn Hall.
  destruct (Sampler_next_origin w times n) as (n' & -> & Hor).
  rewrite Sampler_shouldTrace_Fin.
  assert (Hle : n' <= t).
  { destruct Hor as [-> | Hex]; [assumption|].
    apply List.Exists_exists in Hex. destruct Hex as (x & Hx & ->).
    rewrite List.Forall_forall in Hall. now apply Hall. }
  apply Qle_bool_iff in Hle. now rewrite Hle.
Qed.

Lemma Sampler_idle_window_admits_witness :
  0 <= 1500 /\ Forall (fun x => x + 500 <= 1500) [0; 100; 600; 1000] /\
  fst (Sampler.shouldTrace
         (after Sampler.shouldTrace (Sampler.mk (Fin 500) (Fin 0))
                (Fin <$> [0; 100; 600; 1000]))
         (Fin 1500)) = true.
Proof.
  assert (Hall : Forall (fun x => x + 500 <= 1500) [0; 100; 600; 1000])
    by (repeat constructor; discriminate).
  split; [discriminate|]. split; [exact Hall|].
  apply (Sampler_idle_window_admits 500 0 1500 [0; 100; 600; 1000]);
    [discriminate | exact Hall].
Defined.

(** ** The registry along its life *)

Lemma place_of_Keyed_nonempty (d : RequestDetails) (k : string) :
  place_of d = MultiSampler.Keyed k -> k <> EmptyString.
Proof.
  unfold place_of. destruct (MultiSampler.name_of d) as [[|c k']|];
    try discriminate. now intros [= <-].
Qed.

Lemma get_Own (samplers : gmap string Sampler.t) (k : string) (s : Sampler.t) :
  MultiSampler.get samplers k = MultiSampler.Own s <-> samplers !! k = Some s.
Proof.
  unfold MultiSampler.get. destruct (samplers !! k) as [s'|].
  - split; now intros [= ->].
  - destruct (bool_decide _); split; discriminate.
Qed.

Lemma get_Undefined (samplers : gmap string Sampler.t) (k : string) :
  MultiSampler.get samplers k = MultiSampler.Undefined <->
  samplers !! k = None /\ k ∉ MultiSampler.Object_prototype.
Proof.
  unfold MultiSampler.get. destruct (samplers !! k) as [s'|].
  - split; [discriminate | now intros [? _]].
  - case_bool_decide; split; try discriminate; try tauto; now intros [_ ?].
Qed.

Lemma get_Inherited (samplers : gmap string Sampler.t) (k : string) :
  MultiSampler.get samplers k = MultiSampler.Inherited <->
  samplers !! k = None /\ k ∈ MultiSampler.Object_prototype.
Proof.
  unfold MultiSampler.get. destruct (samplers !! k) as [s'|].
  - split; [discriminate | now intros [? _]].
  - case_bool_decide; split; try discriminate; try tauto; now intros [_ ?].
Qed.

Lemma window_of_put (m : MultiSampler.t) (p : MultiSampler.place) (s : Sampler.t) :
  window_of (MultiSampler.put m p s) = window_of m.
Proof. now destruct p. Qed.

(** A call keeps the rate and the epoch of the registry. *)
Lemma shouldTrace_config (m : MultiSampler.t) (d : RequestDetails) :
  MultiSampler.samplesPerSecond (snd (MultiSampler.shouldTrace m d))
    = MultiSampler.samplesPerSecond m /\
  MultiSampler.samplerStart (snd (MultiSampler.shouldTrace m d))
    = MultiSampler.samplerStart m.
Proof.
  generalize (shouldTrace_served m d).
  generalize (MultiSampler.shouldTrace m d). intros r H.
  destruct H as [Hp | key s Hp _ | key Hp _]; cbn [snd]; split;
    try reflexivity; now destruct m.
Qed.

Lemma registry_ok_step (m : MultiSampler.t) (d : RequestDetails) :
  registry_ok m -> registry_ok (snd (MultiSampler.shouldTrace m d)).
Proof.
  intros [Hu Hk].
  generalize (shouldTrace_served m d).
  generalize (MultiSampler.shouldTrace m d). intros r H.
  destruct H as [Hp | key s Hp Hget | key Hp _]; cbn [snd].
  - split; rewrite window_of_put.
    + cbn. now rewrite Sampler_window_kept.
    + exact Hk.
  - assert (Hs : key <> EmptyString /\ (key ∉ MultiSampler.Object_prototype) /\
                 Sampler.traceWindow s = window_of m).
    { split; [now apply (place_of_Keyed_nonempty d)|].
      destruct Hget as [G | [G ->]].
      - apply get_Own in G. now apply Hk in G.
      - apply get_Undefined in G. now split. }
    split; rewrite window_of_put; [exact Hu|].
    intros k s' Hl. cbn in Hl.
    destruct (decide (key = k)) as [<- | Hne].
    + rewrite lookup_insert_eq in Hl. injection Hl as <-.
      now rewrite Sampler_window_kept.
    + rewrite lookup_insert_ne in Hl by exact Hne. now apply Hk.
  - now split.
Qed.

Lemma registry_ok_after (m : MultiSampler.t) (calls : list RequestDetails) :
  registry_ok m -> registry_ok (after MultiSampler.shouldTrace m calls).
Proof.
  revert m. induction calls as [|d calls IH]; intros m Hm; [exact Hm|].
  rewrite after_cons. now apply IH, registry_ok_step.
Qed.

(** Capping a rate twice is capping it once. *)
Lemma Sampler_new_cap_twice (rate seed : number) :
  Sampler.traceWindow
    (Sampler.new (if Num.gt rate (num 1000) then num 1000 else rate) seed)
  = Sampler.traceWindow (Sampler.new rate seed).
Proof.
  unfold Sampler.new. cbn [Sampler.traceWindow].
  destruct (Num.gt rate (num 1000)) eqn:E; [reflexivity | now rewrite E].
Qed.

Lemma registry_new (rate : number) (clock : Clock) (reads : nat) :
  let m := fst (MultiSampler.new rate clock reads) in
  registry_ok m /\
  window_of m = Sampler.traceWindow (Sampler.new rate (num 0)) /\
  MultiSampler.samplers m = ∅ /\
  MultiSampler.unnamedSampler m
    = Sampler.mk (window_of m) (num (clock reads)) /\
  MultiSampler.samplerStart m = num (clock (S reads)).
Proof.
  unfold MultiSampler.new, mbind, mret, IO_bind, IO_ret, Date.now.
  cbn [fst]. unfold registry_ok, window_of.
  cbn [MultiSampler.samplesPerSecond MultiSampler.samplerStart
       MultiSampler.unnamedSampler MultiSampler.samplers].
  unfold Sampler.new. cbn [Sampler.traceWindow].
  destruct (Num.gt rate (num 1000)) eqn:E.
  - split; [split; [reflexivity | intros k s Hl; now rewrite lookup_empty in Hl]|].
    repeat split.
  - rewrite !E.
    split; [split; [reflexivity | intros k s Hl; now rewrite lookup_empty in Hl]|].
    repeat split.
Qed.

Lemma after_config (m : MultiSampler.t) (calls : list RequestDetails) :
  MultiSampler.samplesPerSecond (after MultiSampler.shouldTrace m calls)
    = MultiSampler.samplesPerSecond m /\
  MultiSampler.samplerStart (after MultiSampler.shouldTrace m calls)
    = MultiSampler.samplerStart m.
Proof.
  revert m. induction calls as [|d calls IH]; intros m; [now split|].
  rewrite after_cons. destruct (IH (snd (MultiSampler.shouldTrace m d))) as [-> ->].
  apply shouldTrace_config.
Qed.

Lemma window_of_after (m : MultiSampler.t) (calls : list RequestDetails) :
  window_of (after MultiSampler.shouldTrace m calls) = window_of m.
Proof.
  unfold window_of. now destruct (after_config m calls) as [-> ->].
Qed.

(** X5.  All along the life of a registry, whatever the requests it has
    served, its rate is the capped rate it was built for, its epoch is the
    clock reading of its construction, every limiter it holds (the unnamed
    one and the one of each name) has the window [1000 / rate] of that
    capped rate, and no limiter is stored under the empty name or under a
    name of [Object.prototype]. *)
Theorem MultiSampler_lifetime_invariant
    (rate : number) (clock : Clock) (calls : list RequestDetails) :
  let m := after MultiSampler.shouldTrace
                 (construct (MultiSampler.new rate) clock) calls in
  let W := Sampler.traceWindow (Sampler.new rate (num 0)) in
  MultiSampler.samplesPerSecond m
    = (if Num.gt rate (num 1000) then num 1000 else rate) /\
  MultiSampler.samplerStart m = num (clock 1%nat) /\
  Sampler.traceWindow (MultiSampler.unnamedSampler m) = W /\
  forall (k : string) (s : Sampler.t),
    MultiSampler.samplers m !! k = Some s ->
    k <> EmptyString /\ (k ∉ MultiSampler.Object_prototype) /\
    Sampler.traceWindow s = W.
Proof.
  intros m W. subst m W. unfold construct.
  destruct (registry_new rate clock 0) as (Hok & HW & _ & _ & Hstart).
  set (m0 := fst (MultiSampler.new rate clock 0%nat)) in *.
  destruct (after_config m0 calls) as [Hr Hs].
  pose proof (registry_ok_after m0 calls Hok) as [Hu Hk].
  rewrite window_of_after, HW in Hu.
  split; [rewrite Hr; reflexivity|]. split; [now rewrite Hs|].
  split; [exact Hu|].
  intros k s Hl. apply Hk in Hl. now rewrite window_of_after, HW in Hl.
Qed.

Lemma MultiSampler_lifetime_invariant_witness :
  let m := after MultiSampler.shouldTrace
                 (construct (MultiSampler.new (num 4)) (fun _ => 0%Z))
                 [request (Some "A") 0 None; request None 1 None;
                  request (Some "A") 300 None] in
  let s := Sampler.mk (Fin (1000 / 4)) (Fin (300 + 1000 / 4)) in
  MultiSampler.samplers m !! "A"%string = Some s /\
  Sampler.traceWindow s
    = Sampler.traceWindow (Sampler.new (num 4) (num 0)).
Proof.
  intros m s.
  assert (Hl : MultiSampler.samplers m !! "A"%string = Some s)
    by (vm_compute; reflexivity).
  split; [exact Hl|].
  destruct (MultiSampler_lifetime_invariant (num 4) (fun _ => 0%Z)
              [request (Some "A") 0 None; request None 1 None;
               request (Some "A") 300 None]) as (_ & _ & _ & Hk).
  exact (proj2 (proj2 (Hk "A"%string s Hl))).
Defined.

(** A registry that stores nothing under a name of [Object.prototype]
    throws exactly on the requests that carry such a name. *)
Lemma registry_throws_iff (m : MultiSampler.t) (d : RequestDetails) :
  registry_ok m ->
  (fst (MultiSampler.shouldTrace m d) = TypeError <->
   exists k : string,
     place_of d = MultiSampler.Keyed k /\ k ∈ MultiSampler.Object_prototype)
  /\ (fst (MultiSampler.shouldTrace m d) = TypeError ->
      snd (MultiSampler.shouldTrace m d) = m).
Proof.
  intros [_ Hk]. split; [split|].
  - generalize (shouldTrace_served m d).
    generalize (MultiSampler.shouldTrace m d). intros r H.
    destruct H as [Hp | key s Hp _ | key Hp G]; cbn [fst]; try discriminate.
    intros _. exists key. split; [exact Hp|]. now apply get_Inherited in G.
  - intros (k & Hp & Hin).
    destruct (shouldTrace_local m d) as [-> _]. rewrite Hp.
    unfold view, serve.
    assert (G : MultiSampler.get (MultiSampler.samplers m) k = MultiSampler.Inherited).
    { apply get_Inherited. split; [|exact Hin].
      destruct (MultiSampler.samplers m !! k) as [s|] eqn:E; [|reflexivity].
      apply Hk in E. tauto. }
    now rewrite G.
  - generalize (shouldTrace_served m d).
    generalize (MultiSampler.shouldTrace m d). intros r H.
    destruct H; cbn [fst snd]; try discriminate. reflexivity.
Qed.

(** X6.  At any point of the life of a registry, a request throws a
    [TypeError] exactly when its name is one of the property names of
    [Object.prototype] ("constructor", "toString", "__proto__", ...); the
    call then leaves the registry as it was.  Every other request is
    answered by [true] or [false]. *)
Theorem MultiSampler_throws_iff
    (rate : number) (clock : Clock) (calls : list RequestDetails)
    (d : RequestDetails) :
  let m := after MultiSampler.shouldTrace
                 (construct (MultiSampler.new rate) clock) calls in
  (fst (MultiSampler.shouldTrace m d) = TypeError <->
   exists k : string,
     place_of d = MultiSampler.Keyed k /\ k ∈ MultiSampler.Object_prototype)
  /\ (fst (MultiSampler.shouldTrace m d) = TypeError ->
      snd (MultiSampler.shouldTrace m d) = m).
Proof.
  intros m. apply registry_throws_iff. subst m.
  apply registry_ok_after. unfold construct.
  now destruct (registry_new rate clock 0) as (Hok & _).
Qed.

Lemma MultiSampler_throws_iff_witness :
  let m := after MultiSampler.shouldTrace
                 (construct (MultiSampler.new (num 2)) (fun _ => 0%Z))
                 [request (Some "A") 0 None; request None 5 None] in
  let d := request (Some "toString") 10 None in
  (exists k : string,
      place_of d = MultiSampler.Keyed k /\ k ∈ MultiSampler.Object_prototype) /\
  fst (MultiSampler.shouldTrace m d) = TypeError /\
  snd (MultiSampler.shouldTrace m d) = m.
Proof.
  intros m d.
  assert (Hex : exists k : string,
             place_of d = MultiSampler.Keyed k /\
             k ∈ MultiSampler.Object_prototype).
  { exists "toString"%string. split; [reflexivity|].
    unfold MultiSampler.Object_prototype.
    repeat first [apply list_elem_of_here | apply list_elem_of_further]. }
  pose proof (MultiSampler_throws_iff (num 2) (fun _ => 0%Z)
                [request (Some "A") 0 None; request None 5 None] d) as [Hiff Hsame].
  split; [exact Hex|]. split; [apply Hiff, Hex | apply Hsame, Hiff, Hex].
Defined.

(** ** The names a registry keeps *)

Set Warnings "-clear-no-such-hyp".

Lemma shouldTrace_dom (m : MultiSampler.t) (d : RequestDetails) :
  dom (MultiSampler.samplers (snd (MultiSampler.shouldTrace m d)))
  = dom (MultiSampler.samplers m) ∪
    match stored_name d with Some k => {[k]} | None => ∅ end.
Proof.
  unfold stored_name.
  generalize (shouldTrace_served m d).
  generalize (MultiSampler.shouldTrace m d). intros r H.
  destruct H as [Hp | key s Hp [G | [G _]] | key Hp G]; rewrite Hp; cbn [snd].
  - cbn. set_solver.
  - apply get_Own in G. cbn. rewrite dom_insert_L.
    assert (key ∈ dom (MultiSampler.samplers m)) by (apply elem_of_dom; eauto).
    case_bool_decide; set_solver.
  - apply get_Undefined in G. destruct G as [_ G]. cbn. rewrite dom_insert_L.
    rewrite bool_decide_eq_false_2 by exact G. set_solver.
  - apply get_Inherited in G. destruct G as [_ G].
    rewrite bool_decide_eq_true_2 by exact G. set_solver.
Qed.

(** X7.  The registry never forgets a name: after any sequence of
    requests, the names it holds a limiter for are the ones it held before
    together with every non-empty name carried by one of the requests,
    the names of [Object.prototype] excepted. *)
Theorem MultiSampler_names_grow (m : MultiSampler.t) (calls : list RequestDetails) :
  dom (MultiSampler.samplers (after MultiSampler.shouldTrace m calls))
  = dom (MultiSampler.samplers m) ∪ stored_names calls.
Proof.
  revert m. induction calls as [|d calls IH]; intros m.
  - unfold stored_names. cbn. set_solver.
  - rewrite after_cons, IH, shouldTrace_dom. unfold stored_names.
    cbn [omap list_omap]. destruct (stored_name d); cbn; set_solver.
Qed.

(** ** The policy as a pipeline *)

(** One call on a policy: decided by the filter and the flag, or handed to
    the rate stage. *)
Lemma EndToEndTracePolicy_step (p : EndToEndTracePolicy.t) (d : RequestDetails) :
  EndToEndTracePolicy.shouldTrace p d =
    if reaches (EndToEndTracePolicy.builtinTracePolicy p) d then
      (fst (TracePolicy.shouldTrace (EndToEndTracePolicy.sampler p) d),
       EndToEndTracePolicy.mk
         (EndToEndTracePolicy.builtinTracePolicy p)
         (snd (TracePolicy.shouldTrace (EndToEndTracePolicy.sampler p) d)))
    else
      (Normal (EndToEndTracePolicy.builtinTracePolicy p d), p).
Proof.
  unfold EndToEndTracePolicy.shouldTrace, reaches.
  destruct (EndToEndTracePolicy.builtinTracePolicy p d); cbn [negb andb];
    [|reflexivity].
  destruct (EndToEndTracePolicy.in_trace d); cbn [negb]; [reflexivity|].
  now destruct (TracePolicy.shouldTrace _ _).
Qed.

Lemma weave_cons (f : RequestDetails -> bool) (d : RequestDetails)
    (calls : list RequestDetails) (rate_ans : list (completion bool)) :
  weave f (d :: calls) rate_ans =
    if reaches f d then
      match rate_ans with
      | r :: rate_ans => r :: weave f calls rate_ans
      | [] => []
      end
    else Normal (f d) :: weave f calls rate_ans.
Proof.
  cbn [weave]. unfold reaches.
  destruct (f d); cbn [negb andb]; [|reflexivity].
  now destruct (EndToEndTracePolicy.in_trace d).
Qed.

(** X8.  A policy is the composition of its three stages: over any
    sequence of requests, its rate stage sees exactly the requests that the
    filter admits and that carry no active-trace flag, in their order, and
    ends in the state those requests alone put it in; the answers of the
    policy are the answers of the rate stage to those requests, interleaved
    with [false] for the filtered requests and [true] for the flagged ones.
    The filter itself never changes. *)
Theorem EndToEndTracePolicy_pipeline
    (p : EndToEndTracePolicy.t) (calls : list RequestDetails) :
  let f := EndToEndTracePolicy.builtinTracePolicy p in
  let through := List.filter (reaches f) calls in
  EndToEndTracePolicy.builtinTracePolicy
    (after EndToEndTracePolicy.shouldTrace p calls) = f /\
  EndToEndTracePolicy.sampler (after EndToEndTracePolicy.shouldTrace p calls)
    = after TracePolicy.shouldTrace (EndToEndTracePolicy.sampler p) through /\
  answers EndToEndTracePolicy.shouldTrace p calls
    = weave f calls
        (answers TracePolicy.shouldTrace (EndToEndTracePolicy.sampler p) through).
Proof.
  cbv zeta. revert p. induction calls as [|d calls IH]; intros p.
  - repeat split.
  - rewrite after_cons, answers_cons, EndToEndTracePolicy_step, weave_cons.
    cbn [List.filter].
    destruct (reaches (EndToEndTracePolicy.builtinTracePolicy p) d);
      cbn [fst snd].
    + rewrite after_cons, answers_cons.
      set (p' := EndToEndTracePolicy.mk _ _).
      destruct (IH p') as (H1 & H2 & H3). subst p'.
      cbn [EndToEndTracePolicy.builtinTracePolicy EndToEndTracePolicy.sampler]
        in H1, H2, H3.
      repeat split; [assumption | assumption | now f_equal].
    + destruct (IH p) as (H1 & H2 & H3).
      repeat split; [assumption | assumption | now f_equal].
Qed.

(** ** The policy along its life *)

(** What the constructor returns: the builtin filter for the two ignore
    lists, and as rate stage a registry built for the sampling rate. *)
Lemma policy_new (Builtin : BuiltinTracePolicy)
    (config : EndToEndTracePolicy.config) (clock : Clock) :
  exists reads : nat,
    construct (EndToEndTracePolicy.new Builtin config) clock =
      EndToEndTracePolicy.mk
        (Builtin {| TracePolicyConfig.ignoreMethods :=
                      EndToEndTracePolicy.ignoreMethods config;
                    TracePolicyConfig.ignoreUrls :=
                      EndToEndTracePolicy.ignoreUrls config;
                    TracePolicyConfig.contextHeaderBehavior := IGNORE;
                    TracePolicyConfig.samplingRate := num 0 |})
        (TracePolicy.Multi
           (fst (MultiSampler.new (EndToEndTracePolicy.samplingRate config)
                                  clock reads))).
Proof.
  unfold construct, EndToEndTracePolicy.new.
  destruct (Num.strict_eq _ _); [exists 0%nat; reflexivity|].
  destruct (Num.lt _ _); [exists 0%nat; reflexivity|].
  exists 2%nat. reflexivity.
Qed.

Lemma policy_ok_new (Builtin : BuiltinTracePolicy)
    (config : EndToEndTracePolicy.config) (clock : Clock) :
  policy_ok (construct (EndToEndTracePolicy.new Builtin config) clock).
Proof.
  destruct (policy_new Builtin config clock) as (reads & ->).
  eexists. split; [reflexivity|].
  now destruct (registry_new (EndToEndTracePolicy.samplingRate config) clock reads).
Qed.

Lemma policy_ok_step (p : EndToEndTracePolicy.t) (d : RequestDetails) :
  policy_ok p -> policy_ok (snd (EndToEndTracePolicy.shouldTrace p d)).
Proof.
  intros (m & Hm & Hok). rewrite EndToEndTracePolicy_step.
  destruct (reaches _ d); cbn [snd]; [|now exists m].
  rewrite Hm. cbn [TracePolicy.shouldTrace].
  destruct (MultiSampler.shouldTrace m d) as [r m'] eqn:E. cbn [snd].
  exists m'. split; [reflexivity|].
  change m' with (snd (r, m')). rewrite <- E. now apply registry_ok_step.
Qed.

Lemma policy_ok_after (p : EndToEndTracePolicy.t) (calls : list RequestDetails) :
  policy_ok p -> policy_ok (after EndToEndTracePolicy.shouldTrace p calls).
Proof.
  revert p. induction calls as [|d calls IH]; intros p Hp; [exact Hp|].
  rewrite after_cons. now apply IH, policy_ok_step.
Qed.

(** X9.  At any point of the life of a policy, a call throws a
    [TypeError] exactly when the request is admitted by the builtin filter,
    carries no active-trace flag, and is named by one of the property names
    of [Object.prototype]; the call then leaves the policy as it was.  On
    every other request the policy answers [true] or [false]. *)
Theorem EndToEndTracePolicy_throws_iff
    (Builtin : BuiltinTracePolicy) (config : EndToEndTracePolicy.config)
    (clock : Clock) (calls : list RequestDetails) (d : RequestDetails) :
  let p := after EndToEndTracePolicy.shouldTrace
                 (construct (EndToEndTracePolicy.new Builtin config) clock)
                 calls in
  (fst (EndToEndTracePolicy.shouldTrace p d) = TypeError <->
   EndToEndTracePolicy.builtinTracePolicy p d = true /\
   EndToEndTracePolicy.in_trace d = false /\
   exists k : string,
     place_of d = MultiSampler.Keyed k /\ k ∈ MultiSampler.Object_prototype)
  /\ (fst (EndToEndTracePolicy.shouldTrace p d) = TypeError ->
      snd (EndToEndTracePolicy.shouldTrace p d) = p).
Proof.
  intros p.
  assert (Hok : policy_ok p) by (apply policy_ok_after, policy_ok_new).
  destruct Hok as (m & Hm & Hok).
  destruct (registry_throws_iff m d Hok) as [Hiff Hsame].
  rewrite EndToEndTracePolicy_step. unfold reaches.
  destruct (EndToEndTracePolicy.builtinTracePolicy p d);
    destruct (EndToEndTracePolicy.in_trace d); cbn [andb negb fst snd];
    try (split; [split; [discriminate | intros (? & ? & _); discriminate]
                | discriminate]).
  rewrite Hm. cbn [TracePolicy.shouldTrace].
  destruct (MultiSampler.shouldTrace m d) as [r m'] eqn:E.
  cbn [fst snd] in Hiff, Hsame |- *. split.
  - rewrite Hiff. split; [intros H; now repeat split | now intros (_ & _ & H)].
  - intros Hr. rewrite (Hsame Hr). destruct p as [f s].
    cbn [EndToEndTracePolicy.sampler] in Hm. now subst s.
Qed.

Lemma EndToEndTracePolicy_throws_iff_witness :
  let p := after EndToEndTracePolicy.shouldTrace
                 (policy_at_0 listed_filter ["/healthz"] 2)
                 [request (Some "A") 0 None; probe (Some "A") 1] in
  let d := request (Some "constructor") 10 None in
  fst (EndToEndTracePolicy.shouldTrace p d) = TypeError /\
  snd (EndToEndTracePolicy.shouldTrace p d) = p.
Proof.
  intros p d.
  pose proof (EndToEndTracePolicy_throws_iff listed_filter
                {| EndToEndTracePolicy.ignoreMethods := [];
                   EndToEndTracePolicy.ignoreUrls := ["/healthz"];
                   EndToEndTracePolicy.samplingRate := num 2 |}
                (fun _ => 0%Z)
                [request (Some "A") 0 None; probe (Some "A") 1] d)
    as [Hiff Hsame].
  assert (Hthrow : fst (EndToEndTracePolicy.shouldTrace p d) = TypeError).
  { apply Hiff. split; [reflexivity|]. split; [reflexivity|].
    exists "constructor"%string. split; [reflexivity|].
    apply list_elem_of_here. }
  split; [exact Hthrow | exact (Hsame Hthrow)].
Defined.

(** X10.  A sampling rate above 1000 per second is served as 1000 per
    second: the policy built for it is the policy built for 1000. *)
Theorem EndToEndTracePolicy_rate_capped
    (Builtin : BuiltinTracePolicy) (config : EndToEndTracePolicy.config)
    (clock : Clock) :
  Num.gt (EndToEndTracePolicy.samplingRate config) (num 1000) = true ->
  construct (EndToEndTracePolicy.new Builtin config) clock
  = construct
      (EndToEndTracePolicy.new Builtin
         {| EndToEndTracePolicy.ignoreMethods :=
              EndToEndTracePolicy.ignoreMethods config;
            EndToEndTracePolicy.ignoreUrls :=
              EndToEndTracePolicy.ignoreUrls config;
            EndToEndTracePolicy.samplingRate := num 1000 |})
      clock.
Proof.
  intros Hgt. unfold construct, EndToEndTracePolicy.new.
  cbn [EndToEndTracePolicy.samplingRate EndToEndTracePolicy.ignoreMethods
       EndToEndTracePolicy.ignoreUrls].
  set (rate := EndToEndTracePolicy.samplingRate config) in *.
  assert (H0 : Num.strict_eq rate (num 0) = false /\ Num.lt rate (num 0) = false).
  { destruct rate as [r| | |]; try discriminate; [|now split].
    unfold Num.gt, num in Hgt. cbn [Num.lt] in Hgt.
    apply negb_true_iff in Hgt.
    assert (Hr : 1000 < r).
    { apply Qnot_le_lt. intros H. apply Qle_bool_iff in H.
      change (inject_Z 1000) with 1000 in Hgt. congruence. }
    unfold num. cbn [Num.strict_eq Num.lt]. split.
    - destruct (Qeq_bool r (inject_Z 0)) eqn:E; [|reflexivity].
      apply Qeq_bool_iff in E. change (inject_Z 0) with 0 in E. lra.
    - apply negb_false_iff, Qle_bool_iff. change (inject_Z 0) with 0. lra. }
  destruct H0 as [-> ->].
  change (Num.strict_eq (num 1000) (num 0)) with false.
  change (Num.lt (num 1000) (num 0)) with false.
  cbv beta iota.
  unfold MultiSampler.new. rewrite Hgt.
  change (Num.gt (num 1000) (num 1000)) with false. reflexivity.
Qed.

Lemma EndToEndTracePolicy_rate_capped_witness :
  Num.gt (num 250000) (num 1000) = true /\
  policy_at_0 listed_filter [] 250000 = policy_at_0 listed_filter [] 1000.
Proof.
  split; [reflexivity|].
  apply (EndToEndTracePolicy_rate_capped listed_filter
           {| EndToEndTracePolicy.ignoreMethods := [];
              EndToEndTracePolicy.ignoreUrls := [];
              EndToEndTracePolicy.samplingRate := num 250000 |}
           (fun _ => 0%Z)).
  reflexivity.
Defined.

(** ** The policy built for a negative rate *)

Lemma ready_by_mono (T T' : Q) (m : MultiSampler.t) :
  T <= T' -> ready_by T m -> ready_by T' m.
Proof.
  intros Hle ((e & He & Hle1) & (n & Hn & Hle2) & Hk).
  split; [exists e; split; [assumption | lra]|].
  split; [exists n; split; [assumption | lra]|].
  intros k s Hl. destruct (Hk k s Hl) as (n' & Hn' & Hle3).
  exists n'. split; [assumption | lra].
Qed.

(** A call on a limiter of negative window whose next admission time has
    come: admitted, and the next admission time stays behind the call. *)
Lemma Sampler_negative_step (w n t : Q) (s : Sampler.t) :
  w < 0 -> Sampler.traceWindow s = Fin w -> Sampler.nextTraceStart s = Fin n ->
  n <= t ->
  Sampler.shouldTrace s (Fin t) = (true, Sampler.mk (Fin w) (Fin (t + w))).
Proof.
  intros Hw HW Hn Hle. destruct s as [W N]. cbn in HW, Hn. subst W N.
  rewrite Sampler_shouldTrace_Fin. apply Qle_bool_iff in Hle. now rewrite Hle.
Qed.

Lemma registry_negative_step (w T t : Q) (m : MultiSampler.t) (d : RequestDetails) :
  registry_ok m -> window_of m = Fin w -> w < 0 ->
  ready_by T m -> timestamp d = Fin t -> T <= t ->
  (fst (MultiSampler.shouldTrace m d) = Normal true \/
   fst (MultiSampler.shouldTrace m d) = TypeError) /\
  ready_by t (snd (MultiSampler.shouldTrace m d)).
Proof.
  intros [Hu Hk] HW Hw Hready Ht HT.
  pose proof (ready_by_mono T t m HT Hready) as Hready'.
  destruct Hready as ((e & He & Hle1) & (n & Hn & Hle2) & Hr).
  destruct Hready' as (Hr1 & Hr2 & Hr3).
  generalize (shouldTrace_served m d).
  generalize (MultiSampler.shouldTrace m d). intros r H.
  destruct H as [Hp | key s Hp Hget | key Hp _]; cbn [fst snd]; rewrite ?Ht.
  - rewrite (Sampler_negative_step w n t) by (try assumption; congruence || lra).
    cbn [fst snd]. split; [now left|].
    split; [exact Hr1|]. split; [|exact Hr3].
    exists (t + w). split; [reflexivity | lra].
  - assert (Hs : exists n', Sampler.traceWindow s = Fin w /\
                            Sampler.nextTraceStart s = Fin n' /\ n' <= T).
    { destruct Hget as [G | [G ->]].
      - apply get_Own in G. destruct (Hr key s G) as (n' & Hn' & Hle').
        exists n'. split; [|now split].
        destruct (Hk key s G) as (_ & _ & ->). exact HW.
      - exists e. split; [exact HW|]. split; [exact He | exact Hle1]. }
    destruct Hs as (n' & HWs & Hns & Hle').
    rewrite (Sampler_negative_step w n' t) by (try assumption; lra).
    cbn [fst snd]. split; [now left|].
    split; [exact Hr1|]. split; [exact Hr2|].
    intros k s' Hl. cbn in Hl.
    destruct (decide (key = k)) as [<- | Hne].
    + rewrite lookup_insert_eq in Hl. injection Hl as <-.
      exists (t + w). split; [reflexivity | lra].
    + rewrite lookup_insert_ne in Hl by exact Hne. exact (Hr3 k s' Hl).
  - split; [now right|]. now repeat split.
Qed.

Lemma window_of_step (m : MultiSampler.t) (d : RequestDetails) :
  window_of (snd (MultiSampler.shouldTrace m d)) = window_of m.
Proof.
  unfold window_of. now destruct (shouldTrace_config m d) as [-> ->].
Qed.

Lemma unlimited_answer_aside (f : RequestDetails -> bool) (d : RequestDetails) :
  reaches f d = false -> unlimited_answer f d = Normal (f d).
Proof.
  unfold reaches, unlimited_answer.
  destruct (f d); cbn [negb andb]; [|reflexivity].
  now destruct (EndToEndTracePolicy.in_trace d).
Qed.

Lemma unlimited_answer_through (f : RequestDetails -> bool) (d : RequestDetails)
    (m : MultiSampler.t) :
  registry_ok m -> reaches f d = true ->
  fst (MultiSampler.shouldTrace m d) = Normal true \/
  fst (MultiSampler.shouldTrace m d) = TypeError ->
  fst (MultiSampler.shouldTrace m d) = unlimited_answer f d.
Proof.
  intros Hok Hr Hans. unfold reaches in Hr. unfold unlimited_answer.
  apply andb_true_iff in Hr. destruct Hr as [-> Hflag].
  apply negb_true_iff in Hflag. rewrite Hflag. cbn [negb].
  destruct (registry_throws_iff m d Hok) as [Hiff _].
  destruct (place_of d) as [|k] eqn:Hp.
  - destruct Hans as [-> | Hthrow]; [reflexivity|].
    apply Hiff in Hthrow. destruct Hthrow as (k & Hk & _). discriminate.
  - case_bool_decide as Hin.
    + apply Hiff. now exists k.
    + destruct Hans as [-> | Hthrow]; [reflexivity|].
      apply Hiff in Hthrow. destruct Hthrow as (k' & [= <-] & Hk'). contradiction.
Qed.

Lemma policy_negative_run (w : Q) (calls : list RequestDetails) (times : list Q)
    (p : EndToEndTracePolicy.t) (m : MultiSampler.t) :
  w < 0 ->
  EndToEndTracePolicy.sampler p = TracePolicy.Multi m ->
  registry_ok m -> window_of m = Fin w ->
  timestamp <$> calls = Fin <$> times ->
  StronglySorted Qle times -> Forall (fun t => ready_by t m) times ->
  answers EndToEndTracePolicy.shouldTrace p calls
  = unlimited_answer (EndToEndTracePolicy.builtinTracePolicy p) <$> calls.
Proof.
  intros Hw. revert times p m.
  induction calls as [|d calls IH]; intros times p m Hm Hok HW Ht Hs Hr;
    [reflexivity|].
  destruct times as [|t times]; [discriminate|].
  rewrite !fmap_cons in Ht. injection Ht as Hd Ht.
  apply StronglySorted_inv in Hs. destruct Hs as [Hs Hle].
  apply Forall_cons in Hr. destruct Hr as [Hrt Hr].
  rewrite answers_cons, fmap_cons, EndToEndTracePolicy_step.
  destruct (reaches _ d) eqn:Hreach; cbn [fst snd].
  - rewrite Hm. cbn [TracePolicy.shouldTrace].
    destruct (registry_negative_step w t t m d Hok HW Hw Hrt Hd) as [Hans Hready];
      [lra|].
    pose proof (registry_ok_step m d Hok) as Hok'.
    pose proof (window_of_step m d) as HW'.
    pose proof (unlimited_answer_through _ d m Hok Hreach Hans) as Hun.
    destruct (MultiSampler.shouldTrace m d) as [r m'] eqn:E.
    cbn [fst snd] in *. f_equal; [exact Hun|].
    apply (IH times (EndToEndTracePolicy.mk
                       (EndToEndTracePolicy.builtinTracePolicy p)
                       (TracePolicy.Multi m')) m');
      try assumption; try reflexivity; [congruence|].
    rewrite List.Forall_forall in Hle |- *. intros t' Hin.
    apply (ready_by_mono t); [now apply Hle | assumption].
  - f_equal; [now rewrite unlimited_answer_aside|].
    now apply (IH times p m).
Qed.

Lemma policy_new_negative (Builtin : BuiltinTracePolicy)
    (config : EndToEndTracePolicy.config) (clock : Clock) (r : Q) :
  EndToEndTracePolicy.samplingRate config = Fin r -> r < 0 ->
  EndToEndTracePolicy.sampler
    (construct (EndToEndTracePolicy.new Builtin config) clock)
  = TracePolicy.Multi (fst (MultiSampler.new (Fin r) clock 0%nat)).
Proof.
  intros Hrate Hr. unfold construct, EndToEndTracePolicy.new. rewrite Hrate.
  unfold num. cbn [Num.strict_eq Num.lt].
  assert (E0 : Qeq_bool r (inject_Z 0) = false).
  { destruct (Qeq_bool r (inject_Z 0)) eqn:E; [|reflexivity].
    apply Qeq_bool_iff in E. change (inject_Z 0) with 0 in E. lra. }
  assert (E1 : Qle_bool (inject_Z 0) r = false).
  { destruct (Qle_bool (inject_Z 0) r) eqn:E; [|reflexivity].
    apply Qle_bool_iff in E. change (inject_Z 0) with 0 in E. lra. }
  rewrite E0, E1. reflexivity.
Qed.

(** X11.  A policy built for a negative sampling rate never limits: on
    requests stamped in non-decreasing order, none before the clock readings
    of the construction, it answers [false] to the requests the builtin
    filter rejects and [true] to every other request (flagged or not),
    but for the [TypeError] on the names of [Object.prototype]. *)
Theorem EndToEndTracePolicy_negative_rate_never_limits
    (Builtin : BuiltinTracePolicy) (config : EndToEndTracePolicy.config)
    (clock : Clock) (r : Q) (calls : list RequestDetails) (times : list Q) :
  EndToEndTracePolicy.samplingRate config = Fin r -> r < 0 ->
  timestamp <$> calls = Fin <$> times ->
  Sorted Qle times ->
  Forall (fun t => inject_Z (clock 0%nat) <= t /\ inject_Z (clock 1%nat) <= t)
         times ->
  let p := construct (EndToEndTracePolicy.new Builtin config) clock in
  answers EndToEndTracePolicy.shouldTrace p calls
  = unlimited_answer (EndToEndTracePolicy.builtinTracePolicy p) <$> calls.
Proof.
  intros Hrate Hr Ht Hs Hclock p.
  pose proof (policy_new_negative Builtin config clock r Hrate Hr) as Hm.
  fold p in Hm.
  destruct (registry_new (Fin r) clock 0) as (Hok & HW & He & Hu & Hstart).
  set (m := fst (MultiSampler.new (Fin r) clock 0%nat)) in *.
  destruct (Sampler_new_negative r (num 0) Hr) as (w & Hw & Hnew).
  rewrite Hnew in HW. cbn [Sampler.traceWindow] in HW.
  apply (policy_negative_run w calls times p m); try assumption.
  - apply Sorted_StronglySorted; [|assumption].
    intros x y z. apply Qle_trans.
  - rewrite List.Forall_forall in Hclock |- *. intros t Hin.
    destruct (Hclock t Hin) as [H0 H1].
    split; [exists (inject_Z (clock 1%nat)); now split|].
    split; [exists (inject_Z (clock 0%nat)); split; [now rewrite Hu | assumption]|].
    intros k s Hl. rewrite He in Hl. now rewrite lookup_empty in Hl.
Qed.

Lemma EndToEndTracePolicy_negative_rate_never_limits_witness :
  let calls := [request (Some "A") 0 None; request (Some "A") 0 None;
                probe (Some "A") 1; request None 2 None;
                request (Some "valueOf") 3 None; request (Some "A") 3 None] in
  (-1 # 1) < 0 /\ Sorted Qle [0; 0; 1; 2; 3; 3] /\
  answers EndToEndTracePolicy.shouldTrace
    (policy_at_0 listed_filter ["/healthz"] (-1)) calls
  = [Normal true; Normal true; Normal false; Normal true; TypeError; Normal true].
Proof.
  intros calls.
  assert (Hs : Sorted Qle [0; 0; 1; 2; 3; 3])
    by (repeat constructor; discriminate).
  split; [reflexivity|]. split; [exact Hs|].
  apply (EndToEndTracePolicy_negative_rate_never_limits listed_filter
           {| EndToEndTracePolicy.ignoreMethods := [];
              EndToEndTracePolicy.ignoreUrls := ["/healthz"];
              EndToEndTracePolicy.samplingRate := num (-1) |}
           (fun _ => 0%Z) (-1 # 1) calls [0; 0; 1; 2; 3; 3]);
    [reflexivity | reflexivity | reflexivity | exact Hs |].
  repeat constructor; discriminate.
Defined.

(** ** The policy built for the rate 0 *)

(** A call at a finite time on a limiter of infinite window: if admitted,
    the next admission time is infinite; if the next admission time was
    infinite already, the call is rejected. *)
Lemma Sampler_infinite_step (s : Sampler.t) (t : Q) :
  Sampler.traceWindow s = PInf ->
  (fst (Sampler.shouldTrace s (Fin t)) = true ->
   Sampler.nextTraceStart (snd (Sampler.shouldTrace s (Fin t))) = PInf) /\
  (Sampler.nextTraceStart s = PInf ->
   Sampler.shouldTrace s (Fin t) = (false, s)).
Proof.
  intros HW. destruct s as [W n]. cbn in HW. subst W.
  unfold Sampler.shouldTrace. cbn [Sampler.nextTraceStart Sampler.traceWindow].
  split.
  - destruct (Num.lt (Fin t) n); [discriminate | reflexivity].
  - now intros ->.
Qed.

Lemma registry_zero_admit (m : MultiSampler.t) (d : RequestDetails) :
  registry_ok m -> window_of m = PInf -> finite_time d ->
  fst (MultiSampler.shouldTrace m d) = Normal true ->
  spent (place_of d) (snd (MultiSampler.shouldTrace m d)).
Proof.
  intros [Hu Hk] HW (t & Ht).
  generalize (shouldTrace_served m d).
  generalize (MultiSampler.shouldTrace m d). intros r H.
  destruct H as [Hp | key s Hp Hget | key Hp _]; cbn [fst snd]; rewrite Hp, ?Ht;
    try discriminate.
  - intros [= Hadm]. cbn.
    apply Sampler_infinite_step; [congruence | assumption].
  - intros [= Hadm]. cbn. eexists. rewrite lookup_insert_eq. split; [reflexivity|].
    apply Sampler_infinite_step; [|assumption].
    destruct Hget as [G | [G ->]]; [|exact HW].
    apply get_Own in G. destruct (Hk key s G) as (_ & _ & ->). exact HW.
Qed.

Lemma registry_zero_spent (p : MultiSampler.place) (m : MultiSampler.t)
    (d : RequestDetails) :
  registry_ok m -> window_of m = PInf -> finite_time d -> spent p m ->
  spent p (snd (MultiSampler.shouldTrace m d)) /\
  (place_of d = p -> fst (MultiSampler.shouldTrace m d) = Normal false).
Proof.
  intros [Hu Hk] HW (t & Ht) Hsp.
  generalize (shouldTrace_served m d).
  generalize (MultiSampler.shouldTrace m d). intros r H.
  destruct H as [Hp | key s Hp Hget | key Hp G]; cbn [fst snd]; rewrite Hp, ?Ht.
  - destruct p as [|k]; cbn in Hsp |- *.
    + destruct (Sampler_infinite_step (MultiSampler.unnamedSampler m) t)
        as [_ Hrej]; [congruence|].
      rewrite (Hrej Hsp). cbn [fst snd]. now split.
    + split; [exact Hsp | discriminate].
  - destruct p as [|k]; cbn in Hsp |- *; [split; [exact Hsp | discriminate]|].
    destruct (decide (key = k)) as [<- | Hne].
    + destruct Hsp as (s0 & Hl & Hn).
      assert (s = s0) as ->.
      { destruct Hget as [G | [G _]].
        - apply get_Own in G. congruence.
        - apply get_Undefined in G. destruct G as [G _]. congruence. }
      destruct (Sampler_infinite_step s0 t) as [_ Hrej].
      { destruct (Hk key s0 Hl) as (_ & _ & ->). exact HW. }
      rewrite (Hrej Hn). cbn [fst snd]. split; [|reflexivity].
      exists s0. now rewrite lookup_insert_eq.
    + split; [|congruence].
      destruct Hsp as (s0 & Hl & Hn). exists s0.
      now rewrite lookup_insert_ne.
  - split; [exact Hsp|]. intros <-. cbn in Hsp. destruct Hsp as (s0 & Hl & _).
    apply get_Inherited in G. destruct G as [G _]. congruence.
Qed.

(** The rate stage of a policy stays a registry in order, of the same
    window, whatever the requests. *)
Lemma policy_registry_after (calls : list RequestDetails)
    (p : EndToEndTracePolicy.t) (m : MultiSampler.t) :
  EndToEndTracePolicy.sampler p = TracePolicy.Multi m -> registry_ok m ->
  exists m' : MultiSampler.t,
    EndToEndTracePolicy.sampler (after EndToEndTracePolicy.shouldTrace p calls)
    = TracePolicy.Multi m' /\
    registry_ok m' /\ window_of m' = window_of m.
Proof.
  revert p m. induction calls as [|d calls IH]; intros p m Hm Hok.
  - now exists m.
  - rewrite after_cons, EndToEndTracePolicy_step.
    destruct (reaches _ d); cbn [snd]; [|exact (IH p m Hm Hok)].
    rewrite Hm. cbn [TracePolicy.shouldTrace].
    pose proof (registry_ok_step m d Hok) as Hok'.
    pose proof (window_of_step m d) as HW'.
    destruct (MultiSampler.shouldTrace m d) as [r m1] eqn:E. cbn [snd] in *.
    destruct (IH (EndToEndTracePolicy.mk
                    (EndToEndTracePolicy.builtinTracePolicy p)
                    (TracePolicy.Multi m1)) m1 eq_refl Hok')
      as (m' & Hm' & Hok'' & HW'').
    exists m'. split; [assumption|]. split; [assumption | congruence].
Qed.

(** The rate stage of a policy is a registry of infinite window whose
    limiter at place [pl] is spent. *)
Lemma policy_zero_step (pl : MultiSampler.place) (p : EndToEndTracePolicy.t)
    (m : MultiSampler.t) (d : RequestDetails) :
  EndToEndTracePolicy.sampler p = TracePolicy.Multi m ->
  registry_ok m -> window_of m = PInf -> finite_time d -> spent pl m ->
  (exists m' : MultiSampler.t,
      EndToEndTracePolicy.sampler (snd (EndToEndTracePolicy.shouldTrace p d))
      = TracePolicy.Multi m' /\
      registry_ok m' /\ window_of m' = PInf /\ spent pl m') /\
  (place_of d = pl -> EndToEndTracePolicy.in_trace d = false ->
   fst (EndToEndTracePolicy.shouldTrace p d) = Normal false).
Proof.
  intros Hm Hok HW Hfin Hsp. rewrite EndToEndTracePolicy_step.
  destruct (reaches _ d) eqn:Hreach; cbn [fst snd].
  - rewrite Hm. cbn [TracePolicy.shouldTrace].
    destruct (registry_zero_spent pl m d Hok HW Hfin Hsp) as [Hsp' Hrej].
    pose proof (registry_ok_step m d Hok) as Hok'.
    pose proof (window_of_step m d) as HW'.
    destruct (MultiSampler.shouldTrace m d) as [r m'] eqn:E.
    cbn [fst snd] in *. split; [|now intros Hp _; apply Hrej].
    exists m'. split; [reflexivity|]. split; [assumption|].
    split; [congruence | assumption].
  - split; [now exists m|]. intros _ Hflag.
    unfold reaches in Hreach. rewrite Hflag in Hreach. cbn [negb] in Hreach.
    rewrite andb_true_r in Hreach. now rewrite Hreach.
Qed.

Lemma policy_zero_after (pl : MultiSampler.place) (calls : list RequestDetails)
    (p : EndToEndTracePolicy.t) (m : MultiSampler.t) :
  EndToEndTracePolicy.sampler p = TracePolicy.Multi m ->
  registry_ok m -> window_of m = PInf -> Forall finite_time calls -> spent pl m ->
  exists m' : MultiSampler.t,
    EndToEndTracePolicy.sampler (after EndToEndTracePolicy.shouldTrace p calls)
    = TracePolicy.Multi m' /\
    registry_ok m' /\ window_of m' = PInf /\ spent pl m'.
Proof.
  revert p m. induction calls as [|d calls IH]; intros p m Hm Hok HW Hfin Hsp.
  - now exists m.
  - apply Forall_cons in Hfin. destruct Hfin as [Hd Hfin].
    rewrite after_cons.
    destruct (policy_zero_step pl p m d Hm Hok HW Hd Hsp)
      as [(m' & Hm' & Hok' & HW' & Hsp') _].
    now apply (IH _ m').
Qed.

(** X12.  A policy built for the sampling rate 0 has a rate stage of
    infinite window: once it has answered [true] to a request without
    active-trace flag, at any point of its life, it answers [false] to
    every later request without flag routed to the same limiter (the same
    name, or no name), whatever requests come in between. *)
Theorem EndToEndTracePolicy_zero_rate_once_per_name
    (Builtin : BuiltinTracePolicy) (config : EndToEndTracePolicy.config)
    (clock : Clock) (before : list RequestDetails) (d : RequestDetails)
    (between : list RequestDetails) (d' : RequestDetails) :
  EndToEndTracePolicy.samplingRate config = num 0 ->
  finite_time d -> Forall finite_time between -> finite_time d' ->
  EndToEndTracePolicy.in_trace d = false ->
  EndToEndTracePolicy.in_trace d' = false ->
  place_of d' = place_of d ->
  let p := after EndToEndTracePolicy.shouldTrace
                 (construct (EndToEndTracePolicy.new Builtin config) clock)
                 before in
  fst (EndToEndTracePolicy.shouldTrace p d) = Normal true ->
  fst (EndToEndTracePolicy.shouldTrace
         (after EndToEndTracePolicy.shouldTrace
                (snd (EndToEndTracePolicy.shouldTrace p d)) between)
         d') = Normal false.
Proof.
  intros Hrate Hd Hbetween Hd' Hflag Hflag' Hplace p Hadm.
  (* the policy before [d]: a registry in order, of infinite window *)
  assert (Hp : exists m, EndToEndTracePolicy.sampler p = TracePolicy.Multi m /\
                         registry_ok m /\ window_of m = PInf).
  { destruct (policy_new Builtin config clock) as (reads & Hnew).
    destruct (registry_new (EndToEndTracePolicy.samplingRate config) clock reads)
      as (Hok0 & HW0 & _).
    assert (HW0' : Sampler.traceWindow
                     (Sampler.new (EndToEndTracePolicy.samplingRate config) (num 0))
                   = PInf) by now rewrite Hrate.
    assert (Hs0 : EndToEndTracePolicy.sampler
                    (construct (EndToEndTracePolicy.new Builtin config) clock)
                  = TracePolicy.Multi
                      (fst (MultiSampler.new
                              (EndToEndTracePolicy.samplingRate config) clock reads)))
      by now rewrite Hnew.
    destruct (policy_registry_after before _ _ Hs0 Hok0) as (m & Hm & Hok & HW).
    exists m. split; [exact Hm|]. split; [assumption | congruence]. }
  destruct Hp as (m & Hm & Hok & HW).
  (* the admission of [d] spends the limiter of its place *)
  assert (Hafter : exists m1,
             EndToEndTracePolicy.sampler (snd (EndToEndTracePolicy.shouldTrace p d))
             = TracePolicy.Multi m1 /\
             registry_ok m1 /\ window_of m1 = PInf /\ spent (place_of d) m1).
  { rewrite EndToEndTracePolicy_step in Hadm |- *.
    destruct (reaches _ d) eqn:Hreach; cbn [fst snd] in Hadm |- *.
    - rewrite Hm in Hadm |- *. cbn [TracePolicy.shouldTrace] in Hadm |- *.
      pose proof (registry_zero_admit m d Hok HW Hd) as Hsp.
      pose proof (registry_ok_step m d Hok) as Hok'.
      pose proof (window_of_step m d) as HW'.
      destruct (MultiSampler.shouldTrace m d) as [r m1] eqn:E.
      cbn [fst snd] in *. exists m1. split; [reflexivity|].
      split; [assumption|]. split; [congruence | now apply Hsp].
    - unfold reaches in Hreach. rewrite Hflag in Hreach. cbn [negb] in Hreach.
      rewrite andb_true_r in Hreach. rewrite Hreach in Hadm. discriminate. }
  destruct Hafter as (m1 & Hm1 & Hok1 & HW1 & Hsp1).
  destruct (policy_zero_after (place_of d) between _ m1 Hm1 Hok1 HW1 Hbetween Hsp1)
    as (m2 & Hm2 & Hok2 & HW2 & Hsp2).
  now apply (policy_zero_step (place_of d) _ m2 d' Hm2 Hok2 HW2 Hd' Hsp2).
Qed.

Lemma finite_time_request (key : option string) (t : Z) (flag : option number) :
  finite_time (request key t flag).
Proof. now exists (inject_Z t). Qed.

Lemma EndToEndTracePolicy_zero_rate_once_per_name_witness :
  let p := after EndToEndTracePolicy.shouldTrace
                 (policy_at_0 listed_filter [] 0)
                 [request (Some "A") (-5) None] in
  let d := request (Some "A") 0 None in
  let between := [request (Some "B") 1 None; request None 2 None;
                  request (Some "A") 3 None] in
  let d' := request (Some "A") 86400000 None in
  fst (EndToEndTracePolicy.shouldTrace p d) = Normal true /\
  fst (EndToEndTracePolicy.shouldTrace
         (after EndToEndTracePolicy.shouldTrace
                (snd (EndToEndTracePolicy.shouldTrace p d)) between)
         d') = Normal false.
Proof.
  intros p d between d'.
  assert (Hadm : fst (EndToEndTracePolicy.shouldTrace p d) = Normal true)
    by (vm_compute; reflexivity).
  split; [exact Hadm|].
  apply (EndToEndTracePolicy_zero_rate_once_per_name listed_filter
           {| EndToEndTracePolicy.ignoreMethods := [];
              EndToEndTracePolicy.ignoreUrls := [];
              EndToEndTracePolicy.samplingRate := num 0 |}
           (fun _ => 0%Z) [request (Some "A") (-5) None] d between d');
    try reflexivity; try apply finite_time_request; try exact Hadm.
  repeat constructor; apply finite_time_request.
Defined.

(** ** The policy built for a positive rate *)










(** * Binary64 rounding *)

(** powers of two *)
Lemma pow2_pos (z : Z) : 0 < pow2 z.
Proof. apply Qpower_0_lt. reflexivity. Qed.

Lemma pow2_add (a b : Z) : pow2 (a + b) == pow2 a * pow2 b.
Proof. apply Qpower_plus. discriminate. Qed.

Lemma pow2_le (a b : Z) : (a <= b)%Z -> pow2 a <= pow2 b.
Proof. intros H. apply Qpower_le_compat_l; [exact H | discriminate]. Qed.

Lemma pow2_lt_inv (a b : Z) : pow2 a < pow2 b -> (a < b)%Z.
Proof. intros H. apply (Qpower_lt_compat_l_inv 2); [exact H | reflexivity]. Qed.

Lemma pow2_Z (n : Z) : (0 <= n)%Z -> inject_Z (2 ^ n) == pow2 n.
Proof. intros H. unfold pow2. now rewrite Zpower_Qpower. Qed.

Lemma pow2_succ (a : Z) : pow2 (a + 1) == 2 * pow2 a.
Proof. rewrite pow2_add. change (pow2 1) with 2. ring. Qed.

(** floor of the binary logarithm *)
Lemma flog2_spec (x : Q) :
  0 < x -> pow2 (flog2 x) <= x /\ x < pow2 (flog2 x + 1).
Proof.
  intros Hx. destruct x as [p q]. unfold flog2. cbn [Qnum Qden].
  assert (Hp : (0 < p)%Z).
  { unfold Qlt in Hx. cbn in Hx. lia. }
  set (lp := Z.log2 p). set (lq := Z.log2 (Zpos q)).
  assert (Hlp : (0 <= lp)%Z) by apply Z.log2_nonneg.
  assert (Hlq : (0 <= lq)%Z) by apply Z.log2_nonneg.
  destruct (Z.log2_spec p Hp) as [Hp1 Hp2]. fold lp in Hp1, Hp2.
  destruct (Z.log2_spec (Zpos q) eq_refl) as [Hq1 Hq2]. fold lq in Hq1, Hq2.
  (* the quotient and the powers as rationals *)
  assert (Ex : p # q == inject_Z p / inject_Z (Zpos q)) by apply Qmake_Qdiv.
  assert (Hq0 : 0 < inject_Z (Zpos q)) by reflexivity.
  assert (HP1 : pow2 lp <= inject_Z p).
  { rewrite <- pow2_Z by exact Hlp. now rewrite <- Zle_Qle. }
  assert (HP2 : inject_Z p < pow2 (lp + 1)).
  { rewrite <- pow2_Z by lia. rewrite <- Zlt_Qlt.
    now replace (lp + 1)%Z with (Z.succ lp) by lia. }
  assert (HQ1 : pow2 lq <= inject_Z (Zpos q)).
  { rewrite <- pow2_Z by exact Hlq. now rewrite <- Zle_Qle. }
  assert (HQ2 : inject_Z (Zpos q) < pow2 (lq + 1)).
  { rewrite <- pow2_Z by lia. rewrite <- Zlt_Qlt.
    now replace (lq + 1)%Z with (Z.succ lq) by lia. }
  (* x < 2^(lp - lq + 1) and 2^(lp - lq - 1) < x *)
  assert (Hup : p # q < pow2 (lp - lq + 1)).
  { rewrite Ex. apply Qlt_shift_div_r; [exact Hq0|].
    apply Qlt_le_trans with (pow2 (lp + 1)); [exact HP2|].
    replace (lp + 1)%Z with ((lp - lq + 1) + lq)%Z by lia.
    rewrite pow2_add.
    apply Qmult_le_l; [apply pow2_pos | exact HQ1]. }
  assert (Hlo : pow2 (lp - lq - 1) < p # q).
  { rewrite Ex. apply Qlt_shift_div_l; [exact Hq0|].
    apply Qlt_le_trans with (pow2 lp); [|exact HP1].
    replace lp with ((lp - lq - 1) + (lq + 1))%Z at 2 by lia.
    rewrite pow2_add.
    apply Qmult_lt_l; [apply pow2_pos | exact HQ2]. }
  destruct (Qle_bool (pow2 (lp - lq)) (p # q)) eqn:E.
  - apply Qle_bool_iff in E. now split.
  - split.
    + now apply Qlt_le_weak.
    + replace (lp - lq - 1 + 1)%Z with (lp - lq)%Z by lia.
      apply Qnot_le_lt. intros H. apply Qle_bool_iff in H. congruence.
Qed.

Lemma flog2_unique (x : Q) (e : Z) :
  pow2 e <= x -> x < pow2 (e + 1) -> flog2 x = e.
Proof.
  intros H1 H2.
  assert (Hx : 0 < x) by (apply Qlt_le_trans with (pow2 e); [apply pow2_pos | exact H1]).
  destruct (flog2_spec x Hx) as [S1 S2].
  assert (flog2 x < e + 1)%Z
    by (apply pow2_lt_inv; apply Qle_lt_trans with x; assumption).
  assert (e < flog2 x + 1)%Z
    by (apply pow2_lt_inv; apply Qle_lt_trans with x; assumption).
  lia.
Qed.

Lemma flog2_mono (x y : Q) : 0 < x -> x <= y -> (flog2 x <= flog2 y)%Z.
Proof.
  intros Hx Hxy.
  destruct (flog2_spec x Hx) as [S1 _].
  destruct (flog2_spec y) as [_ S2]; [lra|].
  assert (flog2 x < flog2 y + 1)%Z by (apply pow2_lt_inv; lra). lia.
Qed.

Lemma flog2_eq (x y : Q) : 0 < x -> x == y -> flog2 x = flog2 y.
Proof.
  intros Hx E. destruct (flog2_spec x Hx) as [S1 S2].
  symmetry. apply flog2_unique; lra.
Qed.

(** the binade of a positive number *)
Lemma binade_upper (x : Q) : 0 < x -> x < pow2 (binade x + 1).
Proof.
  intros Hx. destruct (flog2_spec x Hx) as [_ S2].
  apply Qlt_le_trans with (pow2 (flog2 x + 1)); [exact S2|].
  apply pow2_le. unfold binade. lia.
Qed.

Lemma binade_lower (x : Q) :
  0 < x -> (emin < binade x)%Z -> pow2 (binade x) <= x.
Proof.
  intros Hx H. destruct (flog2_spec x Hx) as [S1 _].
  unfold binade in *. now replace (Z.max (flog2 x) emin) with (flog2 x) by lia.
Qed.

Lemma binade_mono (x y : Q) : 0 < x -> x <= y -> (binade x <= binade y)%Z.
Proof.
  intros Hx Hxy. pose proof (flog2_mono x y Hx Hxy). unfold binade. lia.
Qed.

Lemma binade_normal (x : Q) (e : Z) :
  (emin <= e)%Z -> pow2 e <= x -> x < pow2 (e + 1) -> binade x = e.
Proof.
  intros He H1 H2. unfold binade. rewrite (flog2_unique x e H1 H2). lia.
Qed.

Lemma binade_subnormal (x : Q) : 0 < x -> x < pow2 emin -> binade x = emin.
Proof.
  intros Hx H. destruct (flog2_spec x Hx) as [S1 _].
  assert (flog2 x < emin)%Z by (apply pow2_lt_inv; lra).
  unfold binade. lia.
Qed.

Lemma binade_eq (x y : Q) : 0 < x -> x == y -> binade x = binade y.
Proof. intros Hx E. unfold binade. now rewrite (flog2_eq x y Hx E). Qed.

Lemma ulp_pos (x : Q) : 0 < ulp x.
Proof. apply pow2_pos. Qed.

(** rounding a rational to the nearest integer, ties to even *)
Lemma rne_eq (x y : Q) : x == y -> rne x = rne y.
Proof.
  intros E. unfold rne. cbv zeta.
  rewrite (Qfloor_comp x y E).
  assert (C : Qcompare (x - inject_Z (Qfloor y)) (1 # 2)
              = Qcompare (y - inject_Z (Qfloor y)) (1 # 2)).
  { apply Qcompare_comp; [|reflexivity]. now rewrite E. }
  now rewrite C.
Qed.

Lemma rne_Z (z : Z) : rne (inject_Z z) = z.
Proof.
  unfold rne. cbv zeta. rewrite Qfloor_Z.
  assert (C : Qcompare (inject_Z z - inject_Z z) (1 # 2) = Qcompare 0 (1 # 2)).
  { apply Qcompare_comp; [ring | reflexivity]. }
  now rewrite C.
Qed.

Lemma rne_floor (q : Q) : (Qfloor q <= rne q <= Qfloor q + 1)%Z.
Proof.
  unfold rne. destruct (Qcompare _ _); [destruct (Z.even _)| |]; lia.
Qed.

Lemma rne_mono (x y : Q) : x <= y -> (rne x <= rne y)%Z.
Proof.
  intros Hxy. pose proof (Qfloor_resp_le x y Hxy) as Hf.
  destruct (Z.eq_dec (Qfloor x) (Qfloor y)) as [E | N].
  - unfold rne. cbv zeta. rewrite <- E.
    destruct (Qcompare_spec (x - inject_Z (Qfloor x)) (1 # 2)) as [Cx | Cx | Cx];
      destruct (Qcompare_spec (y - inject_Z (Qfloor x)) (1 # 2)) as [Cy | Cy | Cy];
      try (destruct (Z.even (Qfloor x))); try lia; lra.
  - pose proof (rne_floor x). pose proof (rne_floor y). lia.
Qed.

Lemma rne_ge (q : Q) (a : Z) : inject_Z a <= q -> (a <= rne q)%Z.
Proof. intros H. rewrite <- (rne_Z a). now apply rne_mono. Qed.

Lemma rne_le (q : Q) (b : Z) : q <= inject_Z b -> (rne q <= b)%Z.
Proof. intros H. rewrite <- (rne_Z b). now apply rne_mono. Qed.

(** rounding a positive rational to binary64 precision *)
Lemma rnd_pos_val (x : Q) : rnd_pos x == inject_Z (rne (x / ulp x)) * ulp x.
Proof. unfold rnd_pos. apply Qred_correct. Qed.

Lemma scaled (x : Q) : x / ulp x * ulp x == x.
Proof.
  pose proof (ulp_pos x). field. intros E. rewrite E in H. discriminate.
Qed.

Lemma pow2_split (e k : Z) :
  (0 <= k)%Z -> pow2 (e - 52 + k) == inject_Z (2 ^ k) * pow2 (e - 52).
Proof.
  intros Hk. rewrite pow2_add, pow2_Z by exact Hk. ring.
Qed.

Lemma rnd_pos_eq (x y : Q) : 0 < x -> x == y -> rnd_pos x == rnd_pos y.
Proof.
  intros Hx E. rewrite !rnd_pos_val. unfold ulp.
  rewrite <- (binade_eq x y Hx E).
  rewrite (rne_eq (x / pow2 (binade x - 52)) (y / pow2 (binade x - 52)));
    [reflexivity | apply Qdiv_comp; [exact E | reflexivity]].
Qed.

Lemma rnd_pos_nonneg (x : Q) : 0 < x -> 0 <= rnd_pos x.
Proof.
  intros Hx. rewrite rnd_pos_val. pose proof (ulp_pos x) as Hu.
  assert (0 <= rne (x / ulp x))%Z.
  { apply rne_ge. apply Qle_shift_div_l; [exact Hu|].
    change (inject_Z 0) with 0. lra. }
  apply Qmult_le_0_compat; [|lra].
  change 0 with (inject_Z 0). now rewrite <- Zle_Qle.
Qed.

Lemma rnd_pos_upper (x : Q) : 0 < x -> rnd_pos x <= pow2 (binade x + 1).
Proof.
  intros Hx. rewrite rnd_pos_val. pose proof (ulp_pos x) as Hu.
  replace (binade x + 1)%Z with (binade x - 52 + 53)%Z by lia.
  rewrite pow2_split by lia. fold (ulp x).
  apply Qmult_le_compat_r; [|lra]. rewrite <- Zle_Qle.
  apply rne_le. apply Qle_shift_div_r; [exact Hu|].
  unfold ulp. rewrite <- pow2_split by lia.
  replace (binade x - 52 + 53)%Z with (binade x + 1)%Z by lia.
  apply Qlt_le_weak, binade_upper, Hx.
Qed.

Lemma rnd_pos_lower (x : Q) :
  0 < x -> (emin < binade x)%Z -> pow2 (binade x) <= rnd_pos x.
Proof.
  intros Hx He. rewrite rnd_pos_val. pose proof (ulp_pos x) as Hu.
  replace (binade x) with (binade x - 52 + 52)%Z at 1 by lia.
  rewrite pow2_split by lia. fold (ulp x).
  apply Qmult_le_compat_r; [|lra]. rewrite <- Zle_Qle.
  apply rne_ge. apply Qle_shift_div_l; [exact Hu|].
  unfold ulp. rewrite <- pow2_split by lia.
  replace (binade x - 52 + 52)%Z with (binade x) by lia.
  now apply binade_lower.
Qed.

Lemma rnd_pos_mono (x y : Q) : 0 < x -> x <= y -> rnd_pos x <= rnd_pos y.
Proof.
  intros Hx Hxy. pose proof (binade_mono x y Hx Hxy) as He.
  destruct (Z.eq_dec (binade x) (binade y)) as [E | N].
  - rewrite !rnd_pos_val. unfold ulp. rewrite <- E.
    pose proof (pow2_pos (binade x - 52)) as Hu.
    apply Qmult_le_compat_r; [|lra]. rewrite <- Zle_Qle.
    apply rne_mono. apply Qmult_le_compat_r; [exact Hxy|].
    apply Qlt_le_weak, Qinv_lt_0_compat, Hu.
  - apply Qle_trans with (pow2 (binade x + 1)); [now apply rnd_pos_upper|].
    apply Qle_trans with (pow2 (binade y)); [apply pow2_le; lia|].
    apply rnd_pos_lower; [lra|]. unfold binade in *. lia.
Qed.

(** A positive number on the grid of its own binade is its own rounding. *)
Lemma rnd_pos_grid (x : Q) (m : Z) :
  x == inject_Z m * ulp x -> rnd_pos x == x.
Proof.
  intros E. rewrite rnd_pos_val.
  assert (En : x / ulp x == inject_Z m).
  { rewrite E at 1. pose proof (ulp_pos x) as Hu. field.
    intros E0. rewrite E0 in Hu. discriminate. }
  rewrite (rne_eq _ _ En), rne_Z. now symmetry.
Qed.

Lemma binade_min (x : Q) : (emin <= binade x)%Z.
Proof. unfold binade. lia. Qed.

Lemma rnd_pos_idem (x : Q) :
  0 < x -> 0 < rnd_pos x -> rnd_pos (rnd_pos x) == rnd_pos x.
Proof.
  intros Hx Hy. set (y := rnd_pos x) in *.
  pose proof (rnd_pos_upper x Hx) as Hup. fold y in Hup.
  pose proof (rnd_pos_val x) as Hval. fold y in Hval.
  pose proof (binade_min x) as Hmin.
  destruct (Qlt_le_dec y (pow2 (binade x + 1))) as [Hlt | Hge].
  - assert (Eb : binade y = binade x).
    { destruct (Qlt_le_dec y (pow2 (binade x))) as [Hsub | Hnorm].
      - assert (binade x = emin).
        { destruct (Z.eq_dec (binade x) emin) as [E | N]; [exact E|].
          pose proof (rnd_pos_lower x Hx ltac:(lia)) as Hlo. fold y in Hlo. lra. }
        rewrite H in *. now apply binade_subnormal.
      - now apply binade_normal. }
    apply (rnd_pos_grid y (rne (x / ulp x))).
    unfold ulp at 2. rewrite Eb. exact Hval.
  - assert (Ey : y == pow2 (binade x + 1)) by lra.
    assert (Eb : binade y = (binade x + 1)%Z).
    { apply binade_normal; [lia | lra |].
      rewrite Ey, (pow2_succ (binade x + 1)).
      pose proof (pow2_pos (binade x + 1)). lra. }
    apply (rnd_pos_grid y (2 ^ 52)).
    unfold ulp. rewrite Eb, Ey.
    replace (binade x + 1)%Z with (binade x + 1 - 52 + 52)%Z at 1 by lia.
    now rewrite pow2_split by lia.
Qed.

(** rounding a rational of any sign *)
Lemma rnd_pos_case (x : Q) : 0 < x -> rnd x = rnd_pos x.
Proof.
  intros H. unfold rnd.
  assert (C : Qcompare 0 x = Lt) by now apply Qlt_alt.
  now rewrite C.
Qed.

Lemma rnd_neg_case (x : Q) : x < 0 -> rnd x = - rnd_pos (- x).
Proof.
  intros H. unfold rnd.
  assert (C : Qcompare 0 x = Gt) by now apply Qgt_alt.
  now rewrite C.
Qed.

Lemma rnd_zero_case (x : Q) : x == 0 -> rnd x = 0.
Proof.
  intros H. unfold rnd.
  assert (C : Qcompare 0 x = Eq) by (apply Qeq_alt; now symmetry).
  now rewrite C.
Qed.

Lemma rnd_cases (x : Q) :
  (0 < x /\ rnd x = rnd_pos x) \/ (x == 0 /\ rnd x = 0) \/
  (x < 0 /\ rnd x = - rnd_pos (- x)).
Proof.
  destruct (Q_dec 0 x) as [[H | H] | H].
  - left. split; [exact H | now apply rnd_pos_case].
  - right. right. split; [exact H | now apply rnd_neg_case].
  - right. left. split; [now symmetry | apply rnd_zero_case; now symmetry].
Qed.

Lemma rnd_nonneg (x : Q) : 0 <= x -> 0 <= rnd x.
Proof.
  intros Hx. destruct (rnd_cases x) as [[H ->] | [[H ->] | [H _]]]; try lra.
  now apply rnd_pos_nonneg.
Qed.

Lemma rnd_nonpos (x : Q) : x <= 0 -> rnd x <= 0.
Proof.
  intros Hx. destruct (rnd_cases x) as [[H _] | [[H ->] | [H ->]]]; try lra.
  pose proof (rnd_pos_nonneg (- x)). lra.
Qed.

Lemma rnd_mono (x y : Q) : x <= y -> rnd x <= rnd y.
Proof.
  intros Hxy.
  destruct (rnd_cases x) as [[Hx Ex] | [[Hx Ex] | [Hx Ex]]].
  - rewrite Ex, (rnd_pos_case y) by lra. now apply rnd_pos_mono.
  - rewrite Ex. apply rnd_nonneg. lra.
  - destruct (rnd_cases y) as [[Hy Ey] | [[Hy Ey] | [Hy Ey]]].
    + apply Qle_trans with 0; [apply rnd_nonpos | apply rnd_nonneg]; lra.
    + rewrite Ey. apply rnd_nonpos. lra.
    + rewrite Ex, Ey. apply Qopp_le_compat. apply rnd_pos_mono; lra.
Qed.

Lemma rnd_eq (x y : Q) : x == y -> rnd x == rnd y.
Proof. intros E. apply Qle_antisym; apply rnd_mono; lra. Qed.

Lemma rnd_idem (x : Q) : rnd (rnd x) == rnd x.
Proof.
  destruct (rnd_cases x) as [[Hx Ex] | [[Hx Ex] | [Hx Ex]]]; rewrite Ex.
  - pose proof (rnd_pos_nonneg x Hx) as H0.
    destruct (Qlt_le_dec 0 (rnd_pos x)) as [Hp | Hz].
    + rewrite rnd_pos_case by exact Hp. now apply rnd_pos_idem.
    + rewrite rnd_zero_case by lra. lra.
  - reflexivity.
  - assert (Hx' : 0 < - x) by lra.
    pose proof (rnd_pos_nonneg (- x) Hx') as H0.
    destruct (Qlt_le_dec 0 (rnd_pos (- x))) as [Hp | Hz].
    + rewrite rnd_neg_case by lra.
      apply Qopp_comp.
      rewrite (rnd_pos_eq (- - rnd_pos (- x)) (rnd_pos (- x)));
        [now apply rnd_pos_idem | lra | ring].
    + rewrite rnd_zero_case by lra. lra.
Qed.

(** Integers below 2^53 in magnitude are binary64 numbers. *)
Lemma rnd_pos_Z (z : Z) :
  (0 < z < 2 ^ 53)%Z -> rnd_pos (inject_Z z) == inject_Z z.
Proof.
  intros [Hz Hlt].
  set (e := Z.log2 z).
  assert (He0 : (0 <= e)%Z) by apply Z.log2_nonneg.
  assert (He : (e < 53)%Z) by (apply Z.log2_lt_pow2; assumption).
  destruct (Z.log2_spec z Hz) as [L1 L2]. fold e in L1, L2.
  assert (Eb : binade (inject_Z z) = e).
  { apply binade_normal; [unfold emin; lia | |].
    - rewrite <- pow2_Z by exact He0. now rewrite <- Zle_Qle.
    - rewrite <- pow2_Z by lia. rewrite <- Zlt_Qlt.
      now replace (e + 1)%Z with (Z.succ e) by lia. }
  apply (rnd_pos_grid _ (z * 2 ^ (52 - e))).
  unfold ulp. rewrite Eb, inject_Z_mult, pow2_Z by lia.
  rewrite <- Qmult_assoc, <- pow2_add.
  replace (52 - e + (e - 52))%Z with 0%Z by lia.
  change (pow2 0) with 1. ring.
Qed.

Lemma rnd_Z (z : Z) :
  (Z.abs z < 2 ^ 53)%Z -> rnd (inject_Z z) == inject_Z z.
Proof.
  intros Hz. destruct (Z.lt_trichotomy z 0) as [H | [-> | H]].
  - rewrite rnd_neg_case by (change 0 with (inject_Z 0); rewrite <- Zlt_Qlt; exact H).
    rewrite <- inject_Z_opp, rnd_pos_Z by lia. rewrite inject_Z_opp. ring.
  - reflexivity.
  - rewrite rnd_pos_case by (change 0 with (inject_Z 0); rewrite <- Zlt_Qlt; exact H).
    apply rnd_pos_Z. lia.
Qed.

(** * Admissions under binary64 rounding *)

(** ** Binary64 operations *)

Lemma pow2_1024_large : inject_Z (2 ^ 53) < pow2 1024.
Proof. vm_compute. reflexivity. Qed.


Lemma round_above (x b : Q) :
  - pow2 1024 < b -> b <= rnd x -> above b (B64.round x).
Proof.
  intros Hb Hle. unfold B64.round.
  destruct (Qle_bool (pow2 1024) (rnd x)); [exact I|].
  destruct (Qle_bool (rnd x) (- pow2 1024)) eqn:E2.
  { apply Qle_bool_iff in E2. lra. }
  destruct (Qeq_bool (rnd x) 0 && negb (Qle_bool 0 x)) eqn:E3; cbn [above].
  - apply andb_true_iff in E3. destruct E3 as [E3 _].
    apply Qeq_bool_iff in E3. lra.
  - exact Hle.
Qed.


Lemma add_Fin (x y : Q) :
  B64.add (B64.Fin x) (B64.Fin y)
  = if Qeq_bool (x + y) 0 then B64.Fin 0 else B64.round (x + y).
Proof. reflexivity. Qed.

(** A sum is at least every binary64 number that its exact value is at
    least: rounding is monotone. *)
Lemma add_above (x w b : Q) :
  b <= x + w -> rnd b == b -> - pow2 1024 < b ->
  above b (B64.add (B64.Fin x) (B64.Fin w)).
Proof.
  intros Hle Hb Hlow. rewrite add_Fin.
  destruct (Qeq_bool (x + w) 0) eqn:E.
  - apply Qeq_bool_iff in E. cbn [above]. lra.
  - apply round_above; [exact Hlow|].
    rewrite <- Hb. now apply rnd_mono.
Qed.

Lemma above_weaken (b b' : Q) (v : B64.t) : b' <= b -> above b v -> above b' v.
Proof. destruct v; cbn [above]; intros; try lra; assumption. Qed.

Lemma above_lt (b : Q) (v : B64.t) (x : Q) :
  above b v -> x < b -> B64.lt (B64.Fin x) v = true.
Proof.
  destruct v as [n| | | |]; cbn [above B64.lt B64.value]; intros H Hx;
    try reflexivity; try contradiction.
  - destruct (Qle_bool n x) eqn:E; [|reflexivity].
    apply Qle_bool_iff in E. lra.
  - destruct (Qle_bool 0 x) eqn:E; [|reflexivity].
    apply Qle_bool_iff in E. lra.
Qed.

Lemma above_admit (b : Q) (v : B64.t) (x : Q) :
  above b v -> B64.lt (B64.Fin x) v = false -> b <= x.
Proof.
  intros H Hlt. apply Qnot_lt_le. intros Hx.
  rewrite (above_lt b v x H Hx) in Hlt. discriminate.
Qed.

Lemma lt_Fin64 (x y : Q) :
  B64.lt (B64.Fin x) (B64.Fin y) = negb (Qle_bool y x).
Proof. reflexivity. Qed.

Lemma inject_Z_binary64 (z : Z) :
  (Z.abs z < 2 ^ 53)%Z ->
  rnd (inject_Z z) == inject_Z z /\ - pow2 1024 < inject_Z z.
Proof.
  intros Hz. split; [now apply rnd_Z|].
  pose proof pow2_1024_large as H.
  assert (H' : - inject_Z (2 ^ 53) < inject_Z z).
  { rewrite <- inject_Z_opp, <- Zlt_Qlt. lia. }
  lra.
Qed.

(** An integer number of milliseconds plus a window of at least [k] whole
    milliseconds is at least [k] later, as long as everything stays below
    [2 ^ 53]. *)
Lemma add_ms_above (t k : Z) (W : B64.t) :
  (1 <= k)%Z -> above (inject_Z k) W -> (Z.abs t + k < 2 ^ 53)%Z ->
  above (inject_Z (t + k)) (B64.add (num64 t) W).
Proof.
  intros Hk HW Ht. unfold num64.
  assert (Hk0 : 1 <= inject_Z k)
    by (change 1 with (inject_Z 1); rewrite <- Zle_Qle; exact Hk).
  destruct W as [w| | | |]; cbn [above] in HW; try contradiction.
  - destruct (inject_Z_binary64 (t + k)) as [Hb Hlow]; [lia|].
    apply add_above; [|exact Hb | exact Hlow].
    rewrite inject_Z_plus. lra.
  - lra.
  - exact I.
Qed.

(** ** One sampler over binary64 *)

Lemma Sampler64_step (s : Sampler64.t) (t : B64.t) :
  (B64.lt t (Sampler64.nextTraceStart s) = true /\
   Sampler64.shouldTrace s t = (false, s)) \/
  (B64.lt t (Sampler64.nextTraceStart s) = false /\
   Sampler64.shouldTrace s t
   = (true, Sampler64.mk (Sampler64.traceWindow s)
                         (B64.add t (Sampler64.traceWindow s)))).
Proof.
  unfold Sampler64.shouldTrace.
  destruct (B64.lt t (Sampler64.nextTraceStart s));
    [left | right]; split; reflexivity.
Qed.

Lemma Sampler64_window_kept (s : Sampler64.t) (t : B64.t) :
  Sampler64.traceWindow (snd (Sampler64.shouldTrace s t))
  = Sampler64.traceWindow s.
Proof.
  destruct (Sampler64_step s t) as [[_ ->] | [_ ->]]; reflexivity.
Qed.

Lemma Sampler64_after_window (s : Sampler64.t) (calls : list B64.t) :
  Sampler64.traceWindow (after Sampler64.shouldTrace s calls)
  = Sampler64.traceWindow s.
Proof.
  revert s. induction calls as [|c calls IH]; intros s; [reflexivity|].
  now rewrite after_cons, IH, Sampler64_window_kept.
Qed.

(** Once the next admission time is at least a binary64 number [b], it
    stays so: an admitted call is at [b] or later, and the rounded sum of
    its time and a positive window is not below [b]. *)
Lemma Sampler64_above_run (w b : Q) (times : list Q) (s : Sampler64.t) :
  0 < w -> rnd b == b -> - pow2 1024 < b ->
  Sampler64.traceWindow s = B64.Fin w ->
  above b (Sampler64.nextTraceStart s) ->
  above b (Sampler64.nextTraceStart
             (after Sampler64.shouldTrace s (B64.Fin <$> times))).
Proof.
  intros Hw Hb Hlow. revert s.
  induction times as [|t times IH]; intros s HW Hab; [exact Hab|].
  rewrite fmap_cons, after_cons.
  destruct (Sampler64_step s (B64.Fin t)) as [[_ ->] | [Hadm ->]]; cbn [snd].
  - now apply IH.
  - apply IH; cbn [Sampler64.traceWindow Sampler64.nextTraceStart];
      [exact HW|].
    rewrite HW. apply add_above; [|exact Hb | exact Hlow].
    pose proof (above_admit _ _ _ Hab Hadm). lra.
Qed.

(** A sampler whose next admission time is [Infinity] rejects every call
    at a finite time. *)
Lemma Sampler64_PInf_run (times : list Q) (s : Sampler64.t) :
  Sampler64.nextTraceStart s = B64.PInf ->
  after Sampler64.shouldTrace s (B64.Fin <$> times) = s.
Proof.
  intros HP. induction times as [|t times IH]; [reflexivity|].
  rewrite fmap_cons, after_cons.
  destruct (Sampler64_step s (B64.Fin t)) as [[_ ->] | [Hadm _]];
    [exact IH|].
  rewrite HP in Hadm. discriminate.
Qed.

Lemma negb_Qle_bool (a x : Q) : negb (Qle_bool a x) = true -> x < a.
Proof.
  rewrite negb_true_iff. intros E. apply Qnot_le_lt. intros H.
  apply Qle_bool_iff in H. congruence.
Qed.

(** The sum of two finite numbers is [Infinity], or a number that nothing
    finite is below, or is bounded below by a binary64 number [n] that
    every finite number below the sum is below. *)
Lemma add_shape (t w : Q) :
  let N := B64.add (B64.Fin t) (B64.Fin w) in
  N = B64.PInf \/
  (forall x, B64.lt (B64.Fin x) N = false) \/
  exists n, rnd n == n /\ - pow2 1024 < n /\ above n N /\
            forall x, B64.lt (B64.Fin x) N = true -> x < n.
Proof.
  cbv zeta. rewrite add_Fin. pose proof (pow2_pos 1024) as Hp.
  destruct (Qeq_bool (t + w) 0).
  { right. right. exists 0. split; [reflexivity|]. split; [lra|].
    split; [cbn; lra|]. intros x. rewrite lt_Fin64. apply negb_Qle_bool. }
  unfold B64.round.
  destruct (Qle_bool (pow2 1024) (rnd (t + w))); [now left|].
  destruct (Qle_bool (rnd (t + w)) (- pow2 1024)) eqn:E2; [right; now left|].
  right. right.
  destruct (Qeq_bool (rnd (t + w)) 0 && negb (Qle_bool 0 (t + w))).
  - exists 0. split; [reflexivity|]. split; [lra|].
    split; [cbn; lra|]. intros x. cbn [B64.lt B64.value].
    apply negb_Qle_bool.
  - exists (rnd (t + w)). split; [apply rnd_idem|]. split.
    + apply Qnot_le_lt. intros H. apply Qle_bool_iff in H. congruence.
    + split; [cbn; lra|]. intros x. rewrite lt_Fin64. apply negb_Qle_bool.
Qed.

(** After an admission at [t], a call at a time below the rounded sum
    [t + w] is rejected, whatever calls came in between. *)
Lemma Sampler64_closed_window (w : Q) (s : Sampler64.t) (t : Q)
    (between : list Q) (t' : Q) :
  0 < w -> Sampler64.traceWindow s = B64.Fin w ->
  fst (Sampler64.shouldTrace s (B64.Fin t)) = true ->
  B64.lt (B64.Fin t') (B64.add (B64.Fin t) (B64.Fin w)) = true ->
  fst (Sampler64.shouldTrace
         (after Sampler64.shouldTrace
                (snd (Sampler64.shouldTrace s (B64.Fin t)))
                (B64.Fin <$> between))
         (B64.Fin t')) = false.
Proof.
  intros Hw HW Hadm Hlt.
  destruct (Sampler64_step s (B64.Fin t)) as [[_ E] | [_ E]];
    rewrite E in Hadm |- *; [discriminate|]. clear Hadm E.
  cbn [snd]. rewrite HW.
  destruct (add_shape t w) as [HP | [HN | (n & Hn1 & Hn2 & Hab & Hbelow)]].
  - rewrite Sampler64_PInf_run by exact HP.
    unfold Sampler64.shouldTrace. cbn [Sampler64.nextTraceStart].
    now rewrite Hlt.
  - rewrite HN in Hlt. discriminate.
  - pose proof (Sampler64_above_run w n between
                  (Sampler64.mk (B64.Fin w) (B64.add (B64.Fin t) (B64.Fin w)))
                  Hw Hn1 Hn2 eq_refl Hab) as Hrun.
    destruct (Sampler64_step
                (after Sampler64.shouldTrace
                       (Sampler64.mk (B64.Fin w)
                                     (B64.add (B64.Fin t) (B64.Fin w)))
                       (B64.Fin <$> between))
                (B64.Fin t')) as [[_ ->] | [Hadm' _]]; [reflexivity|].
    pose proof (above_admit _ _ _ Hrun Hadm').
    pose proof (Hbelow t' Hlt). lra.
Qed.

(** C6, as amended.  On a sampler with window [w] and next admission time
    [old], a call at the integer millisecond [now], where [k >= 1] is a
    whole number of milliseconds that [w] is at least and the magnitude of
    [now] plus [k] is below 2^53: when the call is admitted, the next
    admission time becomes the binary64 sum of [now] and [w]; [old] was at
    most [now]; the new value is at least [now + k], hence at least
    [old + k], and strictly above [old].  (It is not [old + w], and not
    the exact [now + w] either, which need not be a binary64 number.)
    When the call is rejected, the sampler, hence its next admission time,
    is unchanged. *)
Theorem Sampler64_admission_advance (w old : Q) (now k : Z) :
  (1 <= k)%Z -> inject_Z k <= w -> (Z.abs now + k < 2 ^ 53)%Z ->
  let s := Sampler64.mk (B64.Fin w) (B64.Fin old) in
  let r := Sampler64.shouldTrace s (num64 now) in
  (fst r = true ->
   Sampler64.nextTraceStart (snd r) = B64.add (num64 now) (B64.Fin w) /\
   old <= inject_Z now /\
   above (inject_Z (now + k)) (Sampler64.nextTraceStart (snd r)) /\
   above (old + inject_Z k) (Sampler64.nextTraceStart (snd r)) /\
   B64.lt (B64.Fin old) (Sampler64.nextTraceStart (snd r)) = true)
  /\ (fst r = false -> snd r = s /\ inject_Z now < old).
Proof.
  intros Hk Hkw Hnow s r. subst r.
  assert (Hk1 : 1 <= inject_Z k)
    by (change 1 with (inject_Z 1); rewrite <- Zle_Qle; exact Hk).
  destruct (Sampler64_step s (num64 now)) as [[Hlt ->] | [Hlt ->]];
    cbn [fst snd]; (split; [|intros Hr; try discriminate]);
    try (intros Hr; discriminate).
  - split; [reflexivity|].
    apply negb_Qle_bool. exact Hlt.
  - intros _. cbn [Sampler64.nextTraceStart Sampler64.traceWindow s].
    assert (Hold : old <= inject_Z now).
    { unfold num64 in Hlt. cbn [Sampler64.nextTraceStart s] in Hlt.
      rewrite lt_Fin64, negb_false_iff in Hlt. now apply Qle_bool_iff. }
    assert (Hab : above (inject_Z (now + k))
                        (B64.add (num64 now) (B64.Fin w)))
      by (apply add_ms_above; assumption).
    split; [reflexivity|]. split; [exact Hold|]. split; [exact Hab|].
    rewrite inject_Z_plus in Hab. split.
    + apply above_weaken with (b := inject_Z now + inject_Z k);
        [lra | exact Hab].
    + apply above_lt with (b := inject_Z now + inject_Z k);
        [exact Hab | lra].
Qed.

Lemma Sampler64_admission_advance_witness :
  let w := B64.value (B64.div (num64 1000) (B64.lit (9999 # 10))) in
  let s := Sampler64.mk (B64.Fin w) (num64 1700000000000) in
  let r := Sampler64.shouldTrace s (num64 1700000000000) in
  (1 <= 1)%Z /\ inject_Z 1 <= w /\
  (Z.abs 1700000000000 + 1 < 2 ^ 53)%Z /\
  fst r = true /\
  Sampler64.nextTraceStart (snd r) = num64 1700000000001 /\
  above (inject_Z (1700000000000 + 1)) (Sampler64.nextTraceStart (snd r)).
Proof.
  intros w s r.
  assert (Hw : inject_Z 1 <= w) by (vm_compute; discriminate).
  assert (Hr : fst r = true) by (vm_compute; reflexivity).
  split; [lia|]. split; [exact Hw|]. split; [lia|]. split; [exact Hr|].
  split; [vm_compute; reflexivity|].
  apply (proj1 (Sampler64_admission_advance
                  w (inject_Z 1700000000000) 1700000000000 1
                  ltac:(lia) Hw ltac:(lia)) Hr).
Defined.

(** C10, refuted as stated: the sampler built for 999.9 per second has a
    window [w] a little above 1 ms; seeded at the millisecond
    1700000000000 and called at that millisecond and the next, it admits
    both calls, although the second is less than [w] after the first: the
    sum [1700000000000 + w] rounds to 1700000000001. *)
Lemma Sampler64_two_admissions_within_window :
  let s := Sampler64.new (B64.lit (9999 # 10)) (num64 1700000000000) in
  exists w : Q,
    Sampler64.traceWindow s = B64.Fin w /\ 0 < w /\
    inject_Z 1700000000001 < inject_Z 1700000000000 + w /\
    answers Sampler64.shouldTrace s
            [num64 1700000000000; num64 1700000000001]
    = [true; true].
Proof.
  cbv zeta. eexists. split; [vm_compute; reflexivity|].
  split; [vm_compute; reflexivity|]. split; vm_compute; reflexivity.
Qed.

(** C10, as amended.  On a sampler with a finite positive window [w]: once
    a call at [t] is admitted, a later call at any time below the binary64
    sum of [t] and [w] (the next admission time the call stored) is
    rejected, whatever calls were made in between; and in a sequence of
    calls at integer milliseconds, where [k] is a whole number of
    milliseconds that [w] is at least and the magnitude of the earlier
    time plus [k] is below 2^53, two admitted calls are at least [k]
    milliseconds apart, the later one after the earlier. *)
Theorem Sampler64_one_admission_per_window (w : Q) (s : Sampler64.t) :
  0 < w -> Sampler64.traceWindow s = B64.Fin w ->
  (forall (t : Q) (between : list Q) (t' : Q),
      fst (Sampler64.shouldTrace s (B64.Fin t)) = true ->
      B64.lt (B64.Fin t') (B64.add (B64.Fin t) (B64.Fin w)) = true ->
      fst (Sampler64.shouldTrace
             (after Sampler64.shouldTrace
                    (snd (Sampler64.shouldTrace s (B64.Fin t)))
                    (B64.Fin <$> between))
             (B64.Fin t')) = false)
  /\
  (forall (k : Z) (times : list Z) (i j : nat) (ti tj : Z),
      inject_Z k <= w -> (Z.abs (ti + k) < 2 ^ 53)%Z ->
      (i < j)%nat -> times !! i = Some ti -> times !! j = Some tj ->
      answers Sampler64.shouldTrace s (num64 <$> times) !! i = Some true ->
      answers Sampler64.shouldTrace s (num64 <$> times) !! j = Some true ->
      (ti + k <= tj)%Z).
Proof.
  intros Hw HW. split.
  - intros t between t' Hadm Hlt.
    now apply Sampler64_closed_window with (w := w).
  - intros k times i j ti tj Hkw Hti Hij Hi Hj Hai Haj.
    assert (Hi' : (num64 <$> times) !! i = Some (num64 ti))
      by now rewrite list_lookup_fmap, Hi.
    assert (Hj' : (num64 <$> times) !! j = Some (num64 tj))
      by now rewrite list_lookup_fmap, Hj.
    rewrite (answers_lookup _ _ _ _ _ Hi') in Hai.
    rewrite (answers_lookup _ _ _ _ _ Hj') in Haj.
    injection Hai as Hai. injection Haj as Haj.
    rewrite (after_take_split _ _ _ i j _ Hij Hi') in Haj.
    destruct (Z_lt_le_dec tj (ti + k)) as [Hlt | Hle]; [|exact Hle].
    exfalso.
    assert (Hmap : forall l : list Z,
               num64 <$> l = B64.Fin <$> (inject_Z <$> l)).
    { intros l. now rewrite <- list_fmap_compose. }
    rewrite <- !fmap_take, <- fmap_drop, !Hmap in Haj.
    rewrite <- fmap_take, Hmap in Hai.
    unfold num64 in Hai, Haj.
    rewrite Sampler64_closed_window with (w := w) in Haj;
      [discriminate | assumption | | assumption |].
    + now rewrite Sampler64_after_window.
    + destruct (inject_Z_binary64 (ti + k) Hti) as [Hb Hlow].
      apply above_lt with (b := inject_Z (ti + k)).
      * apply add_above; [|exact Hb | exact Hlow].
        rewrite inject_Z_plus. lra.
      * now rewrite <- Zlt_Qlt.
Qed.

Lemma Sampler64_one_admission_per_window_witness :
  let w := B64.value (B64.div (num64 1000) (B64.lit (9999 # 10))) in
  let s := Sampler64.mk (B64.Fin w) (num64 1700000000000) in
  0 < w /\ Sampler64.traceWindow s = B64.Fin w /\
  fst (Sampler64.shouldTrace s (B64.Fin 1700000000000)) = true /\
  B64.lt (B64.Fin (1700000000001 - (1 # 2)))
         (B64.add (B64.Fin 1700000000000) (B64.Fin w)) = true /\
  fst (Sampler64.shouldTrace
         (after Sampler64.shouldTrace
                (snd (Sampler64.shouldTrace s (B64.Fin 1700000000000)))
                (B64.Fin <$> [1699999999999; 1700000000003]))
         (B64.Fin (1700000000001 - (1 # 2)))) = false.
Proof.
  intros w s.
  assert (Hw : 0 < w) by (vm_compute; reflexivity).
  assert (Hadm : fst (Sampler64.shouldTrace s (B64.Fin 1700000000000)) = true)
    by (vm_compute; reflexivity).
  assert (Hlt : B64.lt (B64.Fin (1700000000001 - (1 # 2)))
                       (B64.add (B64.Fin 1700000000000) (B64.Fin w)) = true)
    by (vm_compute; reflexivity).
  split; [exact Hw|]. split; [reflexivity|]. split; [exact Hadm|].
  split; [exact Hlt|].
  apply (proj1 (Sampler64_one_admission_per_window w s Hw eq_refl)
               1700000000000 [1699999999999; 1700000000003]
               (1700000000001 - (1 # 2)) Hadm Hlt).
Defined.

(** ** Admissions in an interval, over binary64 *)

Section Interval64.
Variables (W : B64.t) (k : Z) (a L : Q).
Hypothesis Hk : (1 <= k)%Z.
Hypothesis HW : above (inject_Z k) W.




End Interval64.


(** ** Consecutive milliseconds *)








(** ** Agreement with the machine's binary64 arithmetic

    The operations of [B64] against the processor's, on the numbers the
    statements above turn on: the rate 999.9, its window, the sum that
    closes the window at a current timestamp, a division by [-0], an
    overflow, subnormal quotients, a tie at 2^53. *)

Module Machine.
Import PrimFloat.
#[local] Set Warnings "-inexact-float".
Local Open Scope float_scope.

Example literal_agrees : of_float 999.9 = B64.lit (9999 # 10).
Proof. vm_compute. reflexivity. Qed.

Example window_agrees :
  of_float (1000 / 999.9) = B64.div (num64 1000) (B64.lit (9999 # 10)).
Proof. vm_compute. reflexivity. Qed.

Example next_admission_agrees :
  of_float (1700000000000 + 1000 / 999.9)
  = B64.add (num64 1700000000000)
            (B64.div (num64 1000) (B64.lit (9999 # 10))).
Proof. vm_compute. reflexivity. Qed.

Example third_agrees : of_float (1000 / 3) = B64.div (num64 1000) (num64 3).
Proof. vm_compute. reflexivity. Qed.

Example negative_zero_agrees :
  of_float (1000 / (-0)) = B64.div (num64 1000) B64.NegZero.
Proof. vm_compute. reflexivity. Qed.

Example overflow_agrees :
  of_float (1000 / 1e-320)
  = B64.div (num64 1000) (B64.lit (1 / 10 ^ 320)%Q).
Proof. vm_compute. reflexivity. Qed.

Example subnormal_agrees :
  of_float (1 / 1e308 / 3e15)
  = B64.div (B64.div (num64 1) (B64.lit (10 ^ 308)%Q))
            (B64.lit (3 * 10 ^ 15)%Q).
Proof. vm_compute. reflexivity. Qed.

Example underflow_agrees :
  of_float (-1 / 1e308 / 1e308)
  = B64.div (B64.div (num64 (-1)) (B64.lit (10 ^ 308)%Q))
            (B64.lit (10 ^ 308)%Q).
Proof. vm_compute. reflexivity. Qed.

Example tie_agrees :
  of_float (9007199254740992 + 1)
  = B64.add (num64 9007199254740992) (num64 1).
Proof. vm_compute. reflexivity. Qed.

End Machine.
